(** * Shape checking and variant routing of the messenger examples

    A shallow embedding of the run-time parts of the TypeScript training
    sources:

    - [sections/06-runtime-validation.ts]: the superstruct schemas and the
      functions that assert a fetched payload against them;
    - the property-based type guards and [createSafeNotification];
    - [sections/08-function-overloads.ts]: [sendMessage];
    - [sections/07-generic-functions.ts]: [batchArray].

    Values are the values of parsed JSON.  Numbers are modelled by [Z]: the
    properties below concern the run-time kind of a value and integer
    bookkeeping, never floating-point arithmetic. *)

From Stdlib Require Import String Ascii List ZArith Bool Lia Arith.
From Stdlib Require Import DecimalString.
From Stdlib Require Import Permutation Sorted.
From Stdlib Require OrderedTypeEx.
Import ListNotations.

Set Warnings "-register-all".

Local Open Scope string_scope.
Local Open Scope list_scope.

(* ================================================================== *)
(** * JavaScript values *)
(* ================================================================== *)

Module Js.

(** A parsed JSON document.  An object keeps its entries in the order in
    which its keys were discovered. *)
Inductive Value : Type :=
| VNull
| VBool (b : bool)
| VNumber (n : Z)
| VString (s : string)
| VArray (items : list Value)
| VObject (entries : list (string * Value)).

Definition JsObject : Type := list (string * Value).

(** Property read [o.name] / [o[name]]; [None] stands for [undefined]. *)
Fixpoint get (name : string) (o : JsObject) : option Value :=
  match o with
  | [] => None
  | (k, v) :: rest => if String.eqb k name then Some v else get name rest
  end.

(** The [in] operator on an object. *)
Definition has (name : string) (o : JsObject) : bool :=
  match get name o with
  | Some _ => true
  | None => false
  end.

(** The [typeof] operator; [None] is [undefined]. *)
Definition typeof (x : option Value) : string :=
  match x with
  | None => "undefined"
  | Some VNull => "object"
  | Some (VBool _) => "boolean"
  | Some (VNumber _) => "number"
  | Some (VString _) => "string"
  | Some (VArray _) => "object"
  | Some (VObject _) => "object"
  end.

(** [Number.prototype.toString] on an integer (decimal digits, as long as
    the magnitude stays below 10^21). *)
Definition numberToString (n : Z) : string :=
  NilZero.string_of_int (Z.to_int n).

(** [ToString] as a template literal applies it. *)
Fixpoint toString (v : Value) : string :=
  match v with
  | VNull => "null"
  | VBool true => "true"
  | VBool false => "false"
  | VNumber n => numberToString n
  | VString s => s
  | VArray items =>
      let item (x : Value) : string :=
        match x with
        | VNull => ""
        | _ => toString x
        end in
      String.concat "," (map item items)
  | VObject _ => "[object Object]"
  end.

Definition interpolate (x : option Value) : string :=
  match x with
  | None => "undefined"
  | Some v => toString v
  end.

(** How a call ends: with a value, or with a thrown error. *)
Inductive Outcome (E A : Type) : Type :=
| Return (a : A)
| Throw (e : E).

Arguments Return {E A} a.
Arguments Throw {E A} e.

Definition bind {E A B : Type} (m : Outcome E A) (k : A -> Outcome E B)
  : Outcome E B :=
  match m with
  | Return a => k a
  | Throw e => Throw e
  end.

End Js.

(* ================================================================== *)
(** * Runtime validation: the engine behind [assert] and [is] *)
(* ================================================================== *)

Module Validation.
Import Js.

(** ** Shape descriptors, paths and violations *)

(** Modelled from the spec: the data model of section 3.  The sources build
    descriptors with superstruct's combinators and never look inside them;
    the kinds of descriptor, the path of a violation and the two results of
    a validation are those the specification names. *)
Inductive Kind : Type := KString | KNumber | KBoolean.

(** Modelled from the spec: a Shape Descriptor.  The members of a union
    carry their identifier; the unions of the sources have no discriminant
    field, so a member is recognised by its shape. *)
Inductive Shape : Type :=
| Primitive (kind : Kind)
| Optional (inner : Shape)
| Object (fields : list (string * Shape))
| Mapping (keyShape valueShape : Shape)
| Sequence (elementShape : Shape)
| TaggedUnion (members : list (string * Shape)).

Inductive Step : Type :=
| Field (name : string)
| Index (i : nat).

Definition Path : Type := list Step.

Inductive RuntimeKind : Type :=
| RNull | RBoolean | RNumber | RString | RSequence | RObject.

Inductive Expected : Type :=
| EPrimitive (kind : Kind)
| EObject
| EMapping
| ESequence
| EUnion (tried : list string).

Inductive Actual : Type :=
| Missing
| Found (kind : RuntimeKind).

(** Modelled from the spec: a Path Violation, the triple of a path from the
    root, the expected kind and the kind found (or the absence of a field). *)
Record Violation : Type := mkViolation {
  path : Path;
  expected : Expected;
  actual : Actual
}.

Definition ValidationFailure : Type := list Violation.

(** Modelled from the spec: the Validated Value, a raw value with the
    descriptor it was checked against. *)
Record ValidatedValue : Type := mkValidated {
  raw : Value;
  checkedAgainst : Shape
}.

Inductive Result : Type :=
| Valid (value : ValidatedValue)
| Invalid (failure : ValidationFailure).

Definition runtimeKind (v : Value) : RuntimeKind :=
  match v with
  | VNull => RNull
  | VBool _ => RBoolean
  | VNumber _ => RNumber
  | VString _ => RString
  | VArray _ => RSequence
  | VObject _ => RObject
  end.

Definition hasKind (kind : Kind) (v : Value) : bool :=
  match kind, v with
  | KString, VString _ => true
  | KNumber, VNumber _ => true
  | KBoolean, VBool _ => true
  | _, _ => false
  end.

Definition isOptional (s : Shape) : bool :=
  match s with
  | Optional _ => true
  | _ => false
  end.

Fixpoint shapeKind (s : Shape) : Expected :=
  match s with
  | Primitive kind => EPrimitive kind
  | Optional inner => shapeKind inner
  | Object _ => EObject
  | Mapping _ _ => EMapping
  | Sequence _ => ESequence
  | TaggedUnion members => EUnion (map fst members)
  end.

Definition mismatch (p : Path) (e : Expected) (v : Value) : ValidationFailure :=
  [mkViolation p e (Found (runtimeKind v))].

Definition isNil {A : Type} (l : list A) : bool :=
  match l with
  | [] => true
  | _ :: _ => false
  end.

(** The elements of a sequence with their positions. *)
Definition indexed {A : Type} (l : list A) : list (nat * A) :=
  combine (seq 0 (List.length l)) l.

(** Modelled from the spec: the offending keys of a mapping are put in
    lexicographic order before their violations are emitted. *)
Fixpoint insertByKey {A : Type} (x : string * A) (l : list (string * A))
  : list (string * A) :=
  match l with
  | [] => [x]
  | y :: rest =>
      if String.leb (fst x) (fst y) then x :: l else y :: insertByKey x rest
  end.

Fixpoint sortByKey {A : Type} (l : list (string * A)) : list (string * A) :=
  match l with
  | [] => []
  | x :: rest => insertByKey x (sortByKey rest)
  end.

Definition offending (kv : string * ValidationFailure) : bool :=
  negb (isNil (snd kv)).

(** ** The engine *)

Section Engine.

(** The order in which the keys of a raw mapping are visited. *)
Variable enumerate : list (string * Value) -> list (string * Value).

(** Modelled from the spec: the validator engine is the imported
    superstruct package, whose code is not part of these sources; only
    the schemas and the calls of [assert] and [is] are.  The walk follows
    section 4.2 of the specification: primitive, optional, object,
    mapping, sequence and union checks, violations in declaration order,
    depth first.  Descriptors are finite trees, so the guard against
    cyclic descriptors has nothing to reject. *)
Fixpoint check (shape : Shape) (p : Path) (v : Value) {struct shape}
  : ValidationFailure :=
  match shape with
  | Primitive kind =>
      if hasKind kind v then [] else mismatch p (EPrimitive kind) v
  | Optional inner => check inner p v
  | Object fields =>
      match v with
      | VObject entries =>
          (fix checkFields (fs : list (string * Shape)) : ValidationFailure :=
             match fs with
             | [] => []
             | (name, fieldShape) :: rest =>
                 match get name entries with
                 | Some x => check fieldShape (p ++ [Field name]) x
                 | None =>
                     if isOptional fieldShape then []
                     else [mkViolation (p ++ [Field name])
                             (shapeKind fieldShape) Missing]
                 end ++ checkFields rest
             end) fields
      | _ => mismatch p EObject v
      end
  | Mapping keyShape valueShape =>
      match v with
      | VObject entries =>
          let checkEntry (kv : string * Value) :=
            (fst kv,
             check keyShape (p ++ [Field (fst kv)]) (VString (fst kv))
             ++ check valueShape (p ++ [Field (fst kv)]) (snd kv)) in
          concat (map snd
            (sortByKey (filter offending (map checkEntry (enumerate entries)))))
      | _ => mismatch p EMapping v
      end
  | Sequence elementShape =>
      match v with
      | VArray items =>
          flat_map
            (fun ix => check elementShape (p ++ [Index (fst ix)]) (snd ix))
            (indexed items)
      | _ => mismatch p ESequence v
      end
  | TaggedUnion members =>
      if (fix tryMembers (ms : list (string * Shape)) : bool :=
            match ms with
            | [] => false
            | (_, member) :: rest =>
                if isNil (check member p v) then true else tryMembers rest
            end) members
      then []
      else mismatch p (EUnion (map fst members)) v
  end.

(** Modelled from the spec: [validate(raw_value, shape)] of section 4.2,
    the operation the sources reach through superstruct; it answers with
    a validated value or with the ordered violations. *)
Definition validate_with (raw_value : Value) (shape : Shape) : Result :=
  match check shape [] raw_value with
  | [] => Valid (mkValidated raw_value shape)
  | failure => Invalid failure
  end.

End Engine.

(** The check of one declared field of an object, and the test of one
    member of a union, as [check] performs them. *)
Definition fieldViolations (enumerate : list (string * Value) -> list (string * Value))
           (entries : list (string * Value)) (p : Path)
           (field : string * Shape) : ValidationFailure :=
  match get (fst field) entries with
  | Some x => check enumerate (snd field) (p ++ [Field (fst field)]) x
  | None =>
      if isOptional (snd field) then []
      else [mkViolation (p ++ [Field (fst field)]) (shapeKind (snd field)) Missing]
  end.

Definition accepts (enumerate : list (string * Value) -> list (string * Value))
           (p : Path) (v : Value) (member : string * Shape) : bool :=
  isNil (check enumerate (snd member) p v).

Definition entryViolations (enumerate : list (string * Value) -> list (string * Value))
           (keyShape valueShape : Shape) (p : Path) (kv : string * Value)
  : string * ValidationFailure :=
  (fst kv,
   check enumerate keyShape (p ++ [Field (fst kv)]) (VString (fst kv))
   ++ check enumerate valueShape (p ++ [Field (fst kv)]) (snd kv)).

(** Induction over descriptors, through the fields of an object and the
    members of a union. *)
Section ShapeInduction.
Variable P : Shape -> Prop.
Hypothesis HPrimitive : forall kind, P (Primitive kind).
Hypothesis HOptional : forall inner, P inner -> P (Optional inner).
Hypothesis HObject :
  forall fields, Forall (fun f => P (snd f)) fields -> P (Object fields).
Hypothesis HMapping :
  forall keyShape valueShape,
    P keyShape -> P valueShape -> P (Mapping keyShape valueShape).
Hypothesis HSequence :
  forall elementShape, P elementShape -> P (Sequence elementShape).
Hypothesis HUnion :
  forall members, Forall (fun m => P (snd m)) members -> P (TaggedUnion members).

Fixpoint Shape_nested_ind (shape : Shape) : P shape :=
  match shape with
  | Primitive kind => HPrimitive kind
  | Optional inner => HOptional inner (Shape_nested_ind inner)
  | Object fields =>
      HObject fields
        ((fix each (l : list (string * Shape)) : Forall (fun f => P (snd f)) l :=
            match l with
            | [] => Forall_nil _
            | (name, s) :: rest =>
                Forall_cons (name, s) (Shape_nested_ind s) (each rest)
            end) fields)
  | Mapping keyShape valueShape =>
      HMapping keyShape valueShape
        (Shape_nested_ind keyShape) (Shape_nested_ind valueShape)
  | Sequence elementShape =>
      HSequence elementShape (Shape_nested_ind elementShape)
  | TaggedUnion members =>
      HUnion members
        ((fix each (l : list (string * Shape)) : Forall (fun m => P (snd m)) l :=
            match l with
            | [] => Forall_nil _
            | (name, s) :: rest =>
                Forall_cons (name, s) (Shape_nested_ind s) (each rest)
            end) members)
  end.
End ShapeInduction.

(** Keys are visited in the order of their discovery in the payload. *)
Definition discoveryOrder (entries : list (string * Value))
  : list (string * Value) := entries.

Definition validate : Value -> Shape -> Result := validate_with discoveryOrder.

(** Modelled from the spec: the build-time conditions of section 4.1 on a
    descriptor, unique field names and disjoint member identifiers, which
    superstruct's constructors would have to enforce. *)
Fixpoint distinct (names : list string) : bool :=
  match names with
  | [] => true
  | n :: rest => negb (existsb (String.eqb n) rest) && distinct rest
  end.

Fixpoint wellFormed (shape : Shape) : bool :=
  match shape with
  | Primitive _ => true
  | Optional inner => wellFormed inner
  | Object fields =>
      distinct (map fst fields)
      && (fix all (fs : list (string * Shape)) : bool :=
            match fs with
            | [] => true
            | (_, s) :: rest => wellFormed s && all rest
            end) fields
  | Mapping keyShape valueShape => wellFormed keyShape && wellFormed valueShape
  | Sequence elementShape => wellFormed elementShape
  | TaggedUnion members =>
      distinct (map fst members)
      && (fix all (ms : list (string * Shape)) : bool :=
            match ms with
            | [] => true
            | (_, s) :: rest => wellFormed s && all rest
            end) members
  end.

Definition runtimeOf (kind : Kind) : RuntimeKind :=
  match kind with
  | KString => RString
  | KNumber => RNumber
  | KBoolean => RBoolean
  end.

(** What acceptance is meant to guarantee, in the words of the soundness
    property: every required field is present with the declared kind,
    recursively through objects, mappings, sequences and unions. *)
Fixpoint conforms (shape : Shape) (v : Value) {struct shape} : Prop :=
  match shape with
  | Primitive kind => runtimeKind v = runtimeOf kind
  | Optional inner => conforms inner v
  | Object fields =>
      exists entries, v = VObject entries /\
        (fix allFields (fs : list (string * Shape)) : Prop :=
           match fs with
           | [] => True
           | (name, fieldShape) :: rest =>
               match get name entries with
               | Some x => conforms fieldShape x
               | None => isOptional fieldShape = true
               end /\ allFields rest
           end) fields
  | Mapping keyShape valueShape =>
      exists entries, v = VObject entries /\
        Forall (fun kv => conforms keyShape (VString (fst kv))
                          /\ conforms valueShape (snd kv)) entries
  | Sequence elementShape =>
      exists items, v = VArray items /\ Forall (conforms elementShape) items
  | TaggedUnion members =>
      (fix someMember (ms : list (string * Shape)) : Prop :=
         match ms with
         | [] => False
         | (_, member) :: rest => conforms member v \/ someMember rest
         end) members
  end.

(** The keys of every object inside a value are pairwise different, as
    they are in any object JavaScript builds. *)
Fixpoint uniqueKeys (v : Value) : Prop :=
  match v with
  | VArray items =>
      (fix allItems (l : list Value) : Prop :=
         match l with
         | [] => True
         | x :: rest => uniqueKeys x /\ allItems rest
         end) items
  | VObject entries =>
      NoDup (map fst entries)
      /\ (fix allEntries (l : list (string * Value)) : Prop :=
            match l with
            | [] => True
            | (_, x) :: rest => uniqueKeys x /\ allEntries rest
            end) entries
  | _ => True
  end.

End Validation.

(* ================================================================== *)
(** * [06-runtime-validation.ts]: schemas and validated fetches *)
(* ================================================================== *)

Module RuntimeValidation.
Import Js Validation.

(** The combinators imported from superstruct, each as the descriptor it
    stands for: [string()] is [string_], since [string] names the type. *)
Definition object (schema : list (string * Shape)) : Shape := Object schema.
Definition string_ : Shape := Primitive KString.
Definition number : Shape := Primitive KNumber.
Definition optional (inner : Shape) : Shape := Optional inner.
Definition record (key value : Shape) : Shape := Mapping key value.
Definition array (element : Shape) : Shape := Sequence element.
Definition union (members : list (string * Shape)) : Shape := TaggedUnion members.

Inductive Error : Type :=
| StructError (failure : ValidationFailure)
| ErrorMessage (message : string).

(** [is(value, struct)] answers with a boolean; the sources branch on it. *)
Definition is_ (value : Value) (struct : Shape) : bool :=
  match validate value struct with
  | Valid _ => true
  | Invalid _ => false
  end.

(** [assert(value, struct)] returns nothing; its callers go on with the
    value as a validated one, so a mismatch can only leave by a throw. *)
Definition assert (value : Value) (struct : Shape) : Outcome Error unit :=
  match validate value struct with
  | Valid _ => Return tt
  | Invalid failure => Throw (StructError failure)
  end.

Definition ImageSchema : Shape :=
  object [("url", string_); ("width", number); ("height", number);
          ("caption", string_)].

Definition VideoSchema : Shape :=
  object [("url", string_); ("duration", number); ("thumbnail", string_);
          ("title", string_)].

Definition MessageSchema : Shape :=
  object [("id", string_);
          ("sender", string_);
          ("text", optional string_);
          ("timestamp", number);
          ("reactions", optional (record string_ number));
          ("image", optional ImageSchema);
          ("video", optional VideoSchema)].

(** [fetchMessage]: [data] is the parsed body of the response. *)
Definition fetchMessage (data : Value) : Outcome Error Value :=
  bind (assert data MessageSchema) (fun _ => Return data).

Definition FriendRequestSchema : Shape :=
  object [("id", string_); ("sender", string_); ("recipient", string_);
          ("status", string_)].

Definition NewMessageSchema : Shape :=
  object [("id", string_); ("sender", string_); ("text", string_);
          ("timestamp", number)].

Definition ApplicationUpdateSchema : Shape :=
  object [("newVersion", string_); ("releaseNotes", string_);
          ("downloadLink", string_)].

Definition NotificationSchema : Shape :=
  union [("FriendRequest", FriendRequestSchema);
         ("NewMessage", NewMessageSchema);
         ("ApplicationUpdate", ApplicationUpdateSchema)].

Definition getLastNotification (data : Value) : Outcome Error Value :=
  bind (assert data NotificationSchema) (fun _ => Return data).

(** [displayLastNotification]: the line written to the console. *)
Definition displayLastNotification (data : Value)
  : Outcome Error (string * Value) :=
  bind (getLastNotification data) (fun notification =>
    if is_ notification FriendRequestSchema then
      Return ("Friend request received:", notification)
    else if is_ notification NewMessageSchema then
      Return ("New message:", notification)
    else if is_ notification ApplicationUpdateSchema then
      Return ("Application update:", notification)
    else
      Throw (ErrorMessage
        "This can never happen, because we already asserted that it is one of the types")).

Definition ChatGPTResponseDataType : Shape :=
  object [("themes",
           array (object [("summary", string_);
                          ("answerIds", array number)]))].

(** The check of the parsed completion text. *)
Definition assertChatGPTResponse (chatGPTResponse : Value)
  : Outcome Error unit :=
  assert chatGPTResponse ChatGPTResponseDataType.

(** The tests of [displayLastNotification] in the order in which it tries
    them, each with the label it writes to the console. *)
Definition notificationTests : list (string * Shape) :=
  [("Friend request received:", FriendRequestSchema);
   ("New message:", NewMessageSchema);
   ("Application update:", ApplicationUpdateSchema)].

End RuntimeValidation.

(* ================================================================== *)
(** * Type assertions and union types: property-based type guards *)
(* ================================================================== *)

Module TypeGuards.
Import Js.

(** A [Message] is handed over as a plain object. *)
Definition isTextMessage (message : JsObject) : bool :=
  has "text" message.

Definition isImageMessage (message : JsObject) : bool :=
  has "imageUrl" message
  && String.eqb (typeof (get "imageUrl" message)) "string"
  && has "width" message
  && String.eqb (typeof (get "width" message)) "number"
  && has "height" message
  && String.eqb (typeof (get "height" message)) "number".

Definition isVideoMessage (message : JsObject) : bool :=
  has "videoUrl" message
  && String.eqb (typeof (get "videoUrl" message)) "string"
  && has "duration" message
  && String.eqb (typeof (get "duration" message)) "number".

Definition quote : string := String (ascii_of_nat 34) EmptyString.

(** The three template literals of [createSafeNotification]. *)
Definition textNotification (message : JsObject) : string :=
  interpolate (get "sender" message) ++ " texted " ++ quote
  ++ interpolate (get "text" message) ++ quote.

Definition imageNotification (message : JsObject) : string :=
  interpolate (get "sender" message) ++ " sent an image ("
  ++ interpolate (get "width" message) ++ "x"
  ++ interpolate (get "height" message) ++ ")".

(** [Math.floor(duration / 60)] and [duration % 60]; the branch that
    computes them is entered only with [typeof duration === "number"]. *)
Definition videoNotification (message : JsObject) : string :=
  match get "duration" message with
  | Some (VNumber duration) =>
      let minutes := (duration / 60)%Z in
      let seconds := Z.rem duration 60 in
      interpolate (get "sender" message) ++ " sent a video ("
      ++ numberToString minutes ++ ":" ++ numberToString seconds ++ ")"
  | _ =>
      interpolate (get "sender" message) ++ " sent a video (NaN:NaN)"
  end.

Definition createSafeNotification (message : JsObject)
  : Outcome string string :=
  if isTextMessage message then
    Return (textNotification message)
  else if isImageMessage message then
    Return (imageNotification message)
  else if isVideoMessage message then
    Return (videoNotification message)
  else
    Throw "Unknown message type".

(** The declared types, as predicates on the object handed over. *)
Definition hasField (name type : string) (o : JsObject) : bool :=
  has name o && String.eqb (typeof (get name o)) type.

Definition BaseMessage (o : JsObject) : bool :=
  hasField "id" "string" o
  && hasField "sender" "string" o
  && hasField "timestamp" "number" o.

Definition TextMessage (o : JsObject) : bool :=
  BaseMessage o && hasField "text" "string" o.

Definition ImageMessage (o : JsObject) : bool :=
  BaseMessage o
  && hasField "imageUrl" "string" o
  && hasField "width" "number" o
  && hasField "height" "number" o.

Definition VideoMessage (o : JsObject) : bool :=
  BaseMessage o
  && hasField "videoUrl" "string" o
  && hasField "duration" "number" o.

Definition Message (o : JsObject) : bool :=
  TextMessage o || ImageMessage o || VideoMessage o.

(** The guards in the order in which [createSafeNotification] tries them,
    each with the notification of its branch. *)
Inductive Tag : Type := text | image | video.

Definition guards : list (Tag * (JsObject -> bool)) :=
  [(text, isTextMessage); (image, isImageMessage); (video, isVideoMessage)].

Definition notification (tag : Tag) (message : JsObject) : string :=
  match tag with
  | text => textNotification message
  | image => imageNotification message
  | video => videoNotification message
  end.

End TypeGuards.

(* ================================================================== *)
(** * [08-function-overloads.ts]: [sendMessage] *)
(* ================================================================== *)

Module Overloads.

Inductive MessageType : Type := text | image | video.

Definition literal (t : MessageType) : string :=
  match t with
  | text => "text"
  | image => "image"
  | video => "video"
  end.

Record TextMessage : Type := {
  text_recipient : string;
  text_text : string
}.

Record ImageMessage : Type := {
  image_recipient : string;
  image_imageUrl : string;
  image_caption : option string
}.

Record VideoMessage : Type := {
  video_recipient : string;
  video_videoUrl : string;
  video_duration : Z;
  video_thumbnail : option string
}.

(** [type Message = TextMessage | ImageMessage | VideoMessage]; the
    constructor is the [type] field. *)
Inductive Message : Type :=
| MText (m : TextMessage)
| MImage (m : ImageMessage)
| MVideo (m : VideoMessage).

Definition messageType (message : Message) : MessageType :=
  match message with
  | MText _ => text
  | MImage _ => image
  | MVideo _ => video
  end.

Inductive DeliveryStatus : Type := sent | failed.
Inductive UploadStatus : Type := uploading | uploadComplete | uploadFailed.
Inductive ProcessingStatus : Type := processing | processingComplete | processingFailed.

Record BaseResponse : Type := {
  id : string;
  timestamp : Z;
  deliveryStatus : DeliveryStatus
}.

Record TextResponse : Type := {
  text_base : BaseResponse;
  text_content_text : string
}.

Record ImageResponse : Type := {
  image_base : BaseResponse;
  image_content_imageUrl : string;
  image_content_uploadStatus : UploadStatus;
  image_content_progress : option Z
}.

Record VideoResponse : Type := {
  video_base : BaseResponse;
  video_content_videoUrl : string;
  video_content_processingStatus : ProcessingStatus;
  video_content_thumbnail : option string
}.

Inductive Response : Type :=
| RText (r : TextResponse)
| RImage (r : ImageResponse)
| RVideo (r : VideoResponse).

Definition responseType (response : Response) : MessageType :=
  match response with
  | RText _ => text
  | RImage _ => image
  | RVideo _ => video
  end.

(** What the surroundings supply to one call: the result of
    [generateId()] and of [Date.now()]. *)
Record Environment : Type := {
  generateId : string;
  now : Z
}.

(** The request handed to [fetch]. *)
Record Request : Type := {
  url : string;
  method : string;
  body : Message
}.

Definition sendMessage (env : Environment) (message : Message)
  : Response * Request :=
  let id := generateId env in
  let timestamp := now env in
  let request := {| url := "htts://api.example.com/sendMessage";
                    method := "POST";
                    body := message |} in
  let base := {| id := id; timestamp := timestamp; deliveryStatus := sent |} in
  (match message with
   | MText m =>
       RText {| text_base := base; text_content_text := text_text m |}
   | MImage m =>
       RImage {| image_base := base;
                 image_content_imageUrl := image_imageUrl m;
                 image_content_uploadStatus := uploadComplete;
                 image_content_progress := Some 100%Z |}
   | MVideo m =>
       RVideo {| video_base := base;
                 video_content_videoUrl := video_videoUrl m;
                 video_content_processingStatus := processing;
                 video_content_thumbnail := video_thumbnail m |}
   end, request).

End Overloads.

(* ================================================================== *)
(** * Generic functions: [batchArray] *)
(* ================================================================== *)

Module Generics.

Section BatchArray.
Context {T : Type}.

(** [Array.prototype.slice(start, end)]: a negative bound counts from the
    end of the array, and both bounds are clamped to the array. *)
Definition slice (array : list T) (start finish : Z) : list T :=
  let len := Z.of_nat (List.length array) in
  let k := if (start <? 0)%Z then Z.max (len + start) 0 else Z.min start len in
  let final := if (finish <? 0)%Z then Z.max (len + finish) 0 else Z.min finish len in
  firstn (Z.to_nat (final - k)) (skipn (Z.to_nat k) array).

(** The [for] loop of [batchArray]; each unit of fuel pays for one test
    of the loop condition.  [None] means the fuel ran out before the
    condition [i < array.length] became false. *)
Fixpoint batchArray_loop (fuel : nat) (array : list T) (maxBatchSize : Z)
         (i : Z) (batches : list (list T)) : option (list (list T)) :=
  match fuel with
  | O => None
  | S fuel' =>
      if (i <? Z.of_nat (List.length array))%Z
      then batchArray_loop fuel' array maxBatchSize (i + maxBatchSize)
             (batches ++ [slice array i (i + maxBatchSize)])
      else Some batches
  end.

Definition batchArray (fuel : nat) (array : list T) (maxBatchSize : Z)
  : option (list (list T)) :=
  batchArray_loop fuel array maxBatchSize 0 [].

(** What a batch has to look like. *)
Definition goodBatch (maxBatchSize : Z) (batch : list T) : Prop :=
  batch <> [] /\ (Z.of_nat (length batch) <= maxBatchSize)%Z.

End BatchArray.

(** [{ ...obj1, ...obj2 }]: writing a property into an object replaces the
    value of a key the object has and appends a key it has not. *)
Fixpoint set (name : string) (v : Js.Value) (o : Js.JsObject) : Js.JsObject :=
  match o with
  | [] => [(name, v)]
  | (k, x) :: rest =>
      if String.eqb k name then (k, v) :: rest else (k, x) :: set name v rest
  end.

(** The spread of [source] into [target], property after property. *)
Definition spread (target source : Js.JsObject) : Js.JsObject :=
  fold_left (fun acc kv => set (fst kv) (snd kv) acc) source target.

(** [mergeObjects], on plain objects. *)
Definition mergeObjects (obj1 obj2 : Js.JsObject) : Js.JsObject :=
  spread (spread [] obj1) obj2.

(** [array[Math.floor(array.length / 2)]]; [None] is [undefined]. *)
Definition getMiddleElement {T : Type} (array : list T) : option T :=
  nth_error array (length array / 2).

(** [value.map(transformer)]: [Array.prototype.map] hands the element, its
    index and the array itself to the callback, and a callback of more than
    one parameter does read them. *)
Definition transform {T U : Type} (value : list T)
           (transformer : T -> nat -> list T -> U) : list U :=
  map (fun ix => transformer (snd ix) (fst ix) value)
      (combine (seq 0 (length value)) value).

(** [transformBasedOnParameter]: [String(value)] and [Boolean(value)] of an
    integer. *)
Definition transformBasedOnParameter (value : Z) (type : string)
  : Js.Outcome string Js.Value :=
  if String.eqb type "num" then
    Js.Return (Js.VNumber value)
  else if String.eqb type "str" then
    Js.Return (Js.VString (Js.numberToString value))
  else if String.eqb type "bool" then
    Js.Return (Js.VBool (negb (value =? 0)%Z))
  else
    Js.Throw "Invalid type".

(** Every batch but the last holds exactly [maxBatchSize] elements, and
    the last one between one and [maxBatchSize]. *)
Fixpoint fullExceptLast {T : Type} (maxBatchSize : Z) (batches : list (list T))
  : Prop :=
  match batches with
  | [] => True
  | batch :: rest =>
      match rest with
      | [] => (1 <= Z.of_nat (length batch) <= maxBatchSize)%Z
      | _ :: _ => Z.of_nat (length batch) = maxBatchSize
      end
      /\ fullExceptLast maxBatchSize rest
  end.

End Generics.

(* ================================================================== *)
(** * Type assertions: [createNotification] *)
(* ================================================================== *)

Module TypeAssertions.

(** [interface IncomingMessage]; an optional property that is absent reads
    as [undefined]. *)
Record IncomingMessage : Type := {
  id : string;
  sender : string;
  timestamp : Z;
  textContent : option string;
  imageUrl : option string;
  width : option Z;
  height : option Z;
  videoUrl : option string;
  duration : option Z
}.

(** Truthiness of an optional string: [undefined] and [""] are falsy. *)
Definition truthy (s : option string) : bool :=
  match s with
  | Some text => negb (String.eqb text "")
  | None => false
  end.

(** A [TypeError]: a method was called on the [undefined] value of the
    named property. *)
Inductive Error : Type :=
| TypeError (property : string).

Definition quote : string := String (ascii_of_nat 34) EmptyString.

(** [Math.floor(video.duration / 60)] and [video.duration % 60] in a
    template literal; both are [NaN] when the duration is [undefined]. *)
Definition minutesOf (duration : option Z) : string :=
  match duration with
  | Some d => Js.numberToString (d / 60)%Z
  | None => "NaN"
  end.

Definition secondsOf (duration : option Z) : string :=
  match duration with
  | Some d => Js.numberToString (Z.rem d 60)
  | None => "NaN"
  end.

Definition createNotification (message : IncomingMessage)
  : Js.Outcome Error string :=
  if truthy (textContent message) then
    Js.Return (sender message ++ " texted " ++ quote
               ++ Js.interpolate (option_map Js.VString (textContent message))
               ++ quote)%string
  else if truthy (imageUrl message) then
    match width message with
    | None => Js.Throw (TypeError "width")
    | Some w =>
        match height message with
        | None => Js.Throw (TypeError "height")
        | Some h =>
            Js.Return (sender message ++ " sent an image ("
                       ++ Js.numberToString w ++ "x" ++ Js.numberToString h ++ ")")%string
        end
    end
  else if truthy (videoUrl message) then
    Js.Return (sender message ++ " sent a video ("
               ++ minutesOf (duration message) ++ ":"
               ++ secondsOf (duration message) ++ ")")%string
  else
    Js.Return (sender message ++ " sent a message")%string.

End TypeAssertions.

(* ================================================================== *)
(** * Discriminated unions: the guards on the [type] field *)
(* ================================================================== *)

Module DiscriminatedUnions.

(** [x === "literal"] for a property read [x]. *)
Definition strictEquals (x : option Js.Value) (literal : string) : bool :=
  match x with
  | Some (Js.VString s) => String.eqb s literal
  | _ => false
  end.

Definition betterIsTextMessage (message : Js.JsObject) : bool :=
  strictEquals (Js.get "type" message) "text".

Definition betterIsImageMessage (message : Js.JsObject) : bool :=
  strictEquals (Js.get "type" message) "image".

Definition betterIsVideoMessage (message : Js.JsObject) : bool :=
  strictEquals (Js.get "type" message) "video".

End DiscriminatedUnions.

(* ================================================================== *)
(** * Sample payloads *)
(* ================================================================== *)

Module Samples.
Import Js.

(** A message with a text and a complete image: every guard but the video
    one accepts it. *)
Definition textWithImage : JsObject :=
  [("id", VString "7"); ("sender", VString "Alice");
   ("timestamp", VNumber 1700000000000);
   ("text", VString "hi"); ("imageUrl", VString "a.jpg");
   ("width", VNumber 640); ("height", VNumber 480)].

Definition videoFromCharlie : JsObject :=
  [("id", VString "3"); ("sender", VString "Charlie");
   ("timestamp", VNumber 1700000000000);
   ("videoUrl", VString "video.mp4"); ("duration", VNumber 125)].

(** A message whose time stamp arrived as a string. *)
Definition stringTimestamp : Value :=
  VObject [("id", VString "1"); ("sender", VString "A");
           ("timestamp", VString "1700000000000")].



Definition aliceWithReactions : Value :=
  VObject [("id", VString "42"); ("sender", VString "Alice");
           ("timestamp", VNumber 1700000000000);
           ("reactions", VObject [("thumbsup", VNumber 3)])].

(** Two reactions that are not counts. *)
Definition badReactions : Value :=
  VObject [("zebra", VString "many"); ("apple", VNull); ("mango", VNumber 2)].

(** An image message whose width arrived as a numeric-looking string. *)
Definition imageWithStringWidth : JsObject :=
  [("id", VString "2"); ("sender", VString "Bob");
   ("timestamp", VNumber 1700000000000);
   ("imageUrl", VString "photo.jpg");
   ("width", VString "640"); ("height", VNumber 480)].

(** A friend request that carries the fields of a new message as well. *)
Definition friendRequestWithText : Value :=
  VObject [("id", VString "11"); ("sender", VString "Eve");
           ("recipient", VString "Frank"); ("status", VString "pending");
           ("text", VString "hello"); ("timestamp", VNumber 12)].

End Samples.

(* ================================================================== *)
(** * Properties of [batchArray] *)
(* ================================================================== *)

Section BatchArrayFacts.
Context {T : Type}.
Variable array : list T.
Variable maxBatchSize : Z.

Lemma slice_inside (i : Z) :
  (0 <= i)%Z -> (0 <= maxBatchSize)%Z ->
  Generics.slice array i (i + maxBatchSize)
  = firstn (Z.to_nat maxBatchSize) (skipn (Z.to_nat i) array).
Proof.
  intros Hi Hm. unfold Generics.slice.
  destruct (Z.ltb_spec i 0) as [?|_]; [lia|].
  destruct (Z.ltb_spec (i + maxBatchSize) 0) as [?|_]; [lia|].
  destruct (Z.le_gt_cases (i + maxBatchSize) (Z.of_nat (length array)))
    as [Hfit|Hover].
  - rewrite (Z.min_l (i + maxBatchSize)) by lia.
    rewrite (Z.min_l i) by lia.
    f_equal. lia.
  - rewrite (Z.min_r (i + maxBatchSize)) by lia.
    remember (skipn (Z.to_nat (Z.min i (Z.of_nat (length array)))) array) as rest.
    assert (Hrest : rest = skipn (Z.to_nat i) array).
    { subst rest.
      destruct (Z.le_gt_cases i (Z.of_nat (length array))).
      - now rewrite Z.min_l by lia.
      - rewrite Z.min_r by lia. rewrite Nat2Z.id.
        rewrite skipn_all. symmetry. apply skipn_all2. lia. }
    rewrite <- Hrest.
    assert (Hlen : length rest = (length array - Z.to_nat i)%nat)
      by (rewrite Hrest; apply length_skipn).
    rewrite !firstn_all2; trivial; lia.
Qed.

Lemma batchArray_loop_terminates (fuel : nat) :
  (1 <= maxBatchSize)%Z ->
  forall (i : Z) (batches : list (list T)),
    (0 <= i)%Z ->
    (Z.max 0 (Z.of_nat (length array) - i) < Z.of_nat fuel)%Z ->
    exists more,
      Generics.batchArray_loop fuel array maxBatchSize i batches
      = Some (batches ++ more)
      /\ concat more = skipn (Z.to_nat i) array
      /\ Forall (Generics.goodBatch maxBatchSize) more.
Proof.
  intros Hmax.
  induction fuel as [|fuel IH]; intros i batches Hi Hfuel; [lia|].
  simpl.
  destruct (Z.ltb_spec i (Z.of_nat (length array))) as [Hlt|Hge].
  - destruct (IH (i + maxBatchSize)%Z
                (batches ++ [Generics.slice array i (i + maxBatchSize)]))
      as (more & Hrun & Hcat & Hgood); [lia|lia|].
    exists (Generics.slice array i (i + maxBatchSize) :: more).
    rewrite Hrun, <- app_assoc. simpl.
    rewrite slice_inside by lia.
    split; [reflexivity|split].
    + rewrite Hcat.
      replace (Z.to_nat (i + maxBatchSize))
        with (Z.to_nat maxBatchSize + Z.to_nat i)%nat by lia.
      rewrite <- skipn_skipn. apply firstn_skipn.
    + constructor; [|exact Hgood].
      split.
      * intro Hnil. apply (f_equal (@length T)) in Hnil.
        rewrite length_firstn, length_skipn in Hnil. simpl in Hnil. lia.
      * rewrite length_firstn. lia.
  - exists []. rewrite app_nil_r. split; [reflexivity|split].
    + simpl. symmetry. apply skipn_all2. lia.
    + constructor.
Qed.

Lemma batchArray_loop_more_fuel (fuel : nat) :
  forall (i : Z) (batches result : list (list T)) (fuel' : nat),
    Generics.batchArray_loop fuel array maxBatchSize i batches = Some result ->
    (fuel <= fuel')%nat ->
    Generics.batchArray_loop fuel' array maxBatchSize i batches = Some result.
Proof.
  induction fuel as [|fuel IH]; intros i batches result fuel' Hrun Hle;
    [discriminate|].
  destruct fuel' as [|fuel']; [lia|].
  simpl in *.
  destruct (i <? Z.of_nat (length array))%Z; [|exact Hrun].
  apply IH; [exact Hrun|lia].
Qed.

Lemma batchArray_loop_diverges (fuel : nat) :
  (maxBatchSize <= 0)%Z ->
  forall (i : Z) (batches : list (list T)),
    (i < Z.of_nat (length array))%Z ->
    Generics.batchArray_loop fuel array maxBatchSize i batches = None.
Proof.
  intros Hmax.
  induction fuel as [|fuel IH]; intros i batches Hi; [reflexivity|].
  simpl. destruct (Z.ltb_spec i (Z.of_nat (length array))); [|lia].
  apply IH. lia.
Qed.

End BatchArrayFacts.

(** C10.  For an array [a] and an integer [maxBatchSize >= 1], [batchArray]
    terminates (any fuel above the length of [a] is enough) and returns
    batches whose concatenation, in order, is [a], each batch non-empty and
    of length at most [maxBatchSize].  The bound on [maxBatchSize] is needed:
    with [maxBatchSize <= 0] and a non-empty [a] the loop index never gets
    past the end of the array, and no amount of fuel lets the loop finish. *)
Theorem batchArray_partitions {T : Type} (a : list T) (maxBatchSize : Z) :
  ((1 <= maxBatchSize)%Z ->
   exists batches,
     (forall fuel, (length a < fuel)%nat ->
        Generics.batchArray fuel a maxBatchSize = Some batches)
     /\ concat batches = a
     /\ Forall (fun batch =>
                  batch <> [] /\ (Z.of_nat (length batch) <= maxBatchSize)%Z)
          batches)
  /\ ((maxBatchSize <= 0)%Z -> a <> [] ->
      forall fuel, Generics.batchArray fuel a maxBatchSize = None).
Proof.
  split.
  - intros Hmax.
    destruct (batchArray_loop_terminates a maxBatchSize (S (length a)) Hmax 0 [])
      as (batches & Hrun & Hcat & Hgood); [lia|lia|].
    exists batches. split; [|split; assumption].
    intros fuel Hfuel.
    apply (batchArray_loop_more_fuel a maxBatchSize (S (length a)));
      [exact Hrun|lia].
  - intros Hmax Hne fuel.
    apply batchArray_loop_diverges; [exact Hmax|].
    destruct a; [congruence|simpl; lia].
Qed.

Lemma batchArray_partitions_witness :
  (exists batches,
     (forall fuel, (3 < fuel)%nat ->
        Generics.batchArray fuel [1; 2; 3]%Z 2 = Some batches)
     /\ concat batches = [1; 2; 3]%Z
     /\ Forall (fun batch => batch <> [] /\ (Z.of_nat (length batch) <= 2)%Z)
          batches)
  /\ (forall fuel, Generics.batchArray fuel [1; 2; 3]%Z 0 = None).
Proof.
  split.
  - apply (proj1 (batchArray_partitions [1; 2; 3]%Z 2)). lia.
  - apply (proj2 (batchArray_partitions [1; 2; 3]%Z 0)); [lia|discriminate].
Defined.

(* ================================================================== *)
(** * Properties of [sendMessage] *)
(* ================================================================== *)

(** C8.  The variant of the message alone fixes the variant of the response
    of [sendMessage]: a text message yields a [TextResponse] (type "text")
    carrying its text, an image message an [ImageResponse] (type "image"),
    a video message a [VideoResponse] (type "video"), whatever identifier
    and time stamp the surroundings supply; the three cases of the switch
    cover every declared tag. *)
Theorem sendMessage_response_follows_message (env : Overloads.Environment) :
  (forall m : Overloads.TextMessage,
      exists r : Overloads.TextResponse,
        fst (Overloads.sendMessage env (Overloads.MText m)) = Overloads.RText r
        /\ Overloads.text_content_text r = Overloads.text_text m)
  /\ (forall m : Overloads.ImageMessage,
      exists r : Overloads.ImageResponse,
        fst (Overloads.sendMessage env (Overloads.MImage m)) = Overloads.RImage r
        /\ Overloads.image_content_imageUrl r = Overloads.image_imageUrl m)
  /\ (forall m : Overloads.VideoMessage,
      exists r : Overloads.VideoResponse,
        fst (Overloads.sendMessage env (Overloads.MVideo m)) = Overloads.RVideo r
        /\ Overloads.video_content_videoUrl r = Overloads.video_videoUrl m)
  /\ (forall message : Overloads.Message,
      Overloads.responseType (fst (Overloads.sendMessage env message))
      = Overloads.messageType message)
  /\ (forall message : Overloads.Message,
      In (Overloads.literal (Overloads.messageType message))
         ["text"; "image"; "video"]).
Proof.
  repeat split.
  - intros m. eexists. split; reflexivity.
  - intros m. eexists. split; reflexivity.
  - intros m. eexists. split; reflexivity.
  - intros [m|m|m]; reflexivity.
  - intros [m|m|m]; simpl; auto.
Qed.

Example sendMessage_text_usage :
  let env := {| Overloads.generateId := "k3j9x2ab"; Overloads.now := 1700000000000 |} in
  let message := Overloads.MText {| Overloads.text_recipient := "user123";
                                    Overloads.text_text := "Hello there!" |} in
  Overloads.literal (Overloads.responseType (fst (Overloads.sendMessage env message)))
  = "text"
  /\ Overloads.body (snd (Overloads.sendMessage env message)) = message.
Proof. split; reflexivity. Qed.

(* ================================================================== *)
(** * Properties of the property-based type guards *)
(* ================================================================== *)

Section GuardFacts.
Import Js TypeGuards.

Lemma hasField_has (name type : string) (o : JsObject) :
  hasField name type o = true -> has name o = true.
Proof.
  unfold hasField. intros H. apply andb_true_iff in H. tauto.
Qed.

Lemma hasField_typeof (name type : string) (o : JsObject) :
  hasField name type o = true -> String.eqb (typeof (get name o)) type = true.
Proof.
  unfold hasField. intros H. apply andb_true_iff in H. tauto.
Qed.

Lemma TextMessage_guard (o : JsObject) :
  TextMessage o = true -> isTextMessage o = true.
Proof.
  unfold TextMessage, isTextMessage. intros H.
  apply andb_true_iff in H. destruct H as [_ H].
  now apply hasField_has in H.
Qed.

Lemma ImageMessage_guard (o : JsObject) :
  ImageMessage o = true -> isImageMessage o = true.
Proof.
  unfold ImageMessage, isImageMessage. intros H.
  repeat (apply andb_true_iff in H; destruct H as [H ?]).
  repeat (apply andb_true_iff; split);
    eauto using hasField_has, hasField_typeof.
Qed.

Lemma VideoMessage_guard (o : JsObject) :
  VideoMessage o = true -> isVideoMessage o = true.
Proof.
  unfold VideoMessage, isVideoMessage. intros H.
  repeat (apply andb_true_iff in H; destruct H as [H ?]).
  repeat (apply andb_true_iff; split);
    eauto using hasField_has, hasField_typeof.
Qed.

Lemma createSafeNotification_find (message : JsObject) :
  createSafeNotification message
  = match find (fun g => snd g message) guards with
    | Some (tag, _) => Return (notification tag message)
    | None => Throw "Unknown message type"
    end.
Proof.
  unfold createSafeNotification, guards. simpl.
  destruct (isTextMessage message); [reflexivity|].
  destruct (isImageMessage message); [reflexivity|].
  destruct (isVideoMessage message); reflexivity.
Qed.

End GuardFacts.

(** C9.  Every object of type [Message] (a text, image or video message
    with all required fields of the declared kinds) is accepted by at least
    one of the three guards, so [createSafeNotification] returns a string
    for it and never reaches its final throw. *)
Theorem guards_cover_Message (message : Js.JsObject) :
  TypeGuards.Message message = true ->
  (TypeGuards.isTextMessage message
   || TypeGuards.isImageMessage message
   || TypeGuards.isVideoMessage message) = true
  /\ (exists s : string,
         TypeGuards.createSafeNotification message = Js.Return s)
  /\ TypeGuards.createSafeNotification message
     <> Js.Throw "Unknown message type".
Proof.
  intros Hty. unfold TypeGuards.Message in Hty.
  assert (Hcover : (TypeGuards.isTextMessage message
                    || TypeGuards.isImageMessage message
                    || TypeGuards.isVideoMessage message) = true).
  { apply orb_true_iff in Hty. destruct Hty as [Hty|Hty].
    - apply orb_true_iff in Hty. destruct Hty as [Hty|Hty].
      + now rewrite (TextMessage_guard _ Hty).
      + rewrite (ImageMessage_guard _ Hty). now rewrite orb_true_r.
    - rewrite (VideoMessage_guard _ Hty). now rewrite orb_true_r. }
  split; [exact Hcover|].
  unfold TypeGuards.createSafeNotification.
  destruct (TypeGuards.isTextMessage message);
    [split; [eexists; reflexivity|discriminate]|].
  destruct (TypeGuards.isImageMessage message);
    [split; [eexists; reflexivity|discriminate]|].
  destruct (TypeGuards.isVideoMessage message);
    [split; [eexists; reflexivity|discriminate]|].
  discriminate.
Qed.

Lemma guards_cover_Message_witness :
  TypeGuards.Message Samples.videoFromCharlie = true
  /\ TypeGuards.createSafeNotification Samples.videoFromCharlie
     = Js.Return "Charlie sent a video (2:5)"
  /\ TypeGuards.createSafeNotification Samples.videoFromCharlie
     <> Js.Throw "Unknown message type".
Proof.
  split; [reflexivity|]. split; [reflexivity|].
  apply (guards_cover_Message Samples.videoFromCharlie). reflexivity.
Defined.

(* ================================================================== *)
(** * Properties of the validation engine *)
(* ================================================================== *)

Section CheckEquations.
Import Js Validation.
Variable enumerate : list (string * Value) -> list (string * Value).

Lemma check_Object (fields : list (string * Shape))
      (entries : list (string * Value)) (p : Path) :
  check enumerate (Object fields) p (VObject entries)
  = flat_map (fieldViolations enumerate entries p) fields.
Proof.
  simpl. induction fields as [|[name fieldShape] rest IH]; [reflexivity|].
  simpl. unfold fieldViolations at 1. simpl. now rewrite IH.
Qed.

Lemma check_TaggedUnion (members : list (string * Shape)) (p : Path) (v : Value) :
  check enumerate (TaggedUnion members) p v
  = if existsb (accepts enumerate p v) members then []
    else mismatch p (EUnion (map fst members)) v.
Proof.
  simpl.
  match goal with
  | |- (if ?f members then _ else _) = _ =>
      assert (Htry : f members = existsb (accepts enumerate p v) members)
  end.
  { induction members as [|[name member] rest IH]; [reflexivity|].
    simpl. unfold accepts at 1. simpl.
    destruct (isNil (check enumerate member p v)); [reflexivity|exact IH]. }
  now rewrite Htry.
Qed.

Lemma check_Mapping (keyShape valueShape : Shape)
      (entries : list (string * Value)) (p : Path) :
  check enumerate (Mapping keyShape valueShape) p (VObject entries)
  = concat (map snd (sortByKey (filter offending
      (map (entryViolations enumerate keyShape valueShape p)
           (enumerate entries))))).
Proof. reflexivity. Qed.

Lemma check_Primitive_nil (kind : Kind) (p : Path) (v : Value) :
  check enumerate (Primitive kind) p v = [] <-> runtimeKind v = runtimeOf kind.
Proof.
  simpl. destruct kind, v; simpl; split; intros H;
    try reflexivity; discriminate.
Qed.



End CheckEquations.

Section SequenceFacts.
Context {A B : Type}.



End SequenceFacts.

(** C6.  A primitive descriptor accepts a value only when the run-time kind
    of the value is exactly the descriptor's kind; nothing is coerced.  A
    string of digits is no number: [number()] rejects it, [fetchMessage]
    rejects a message whose time stamp is such a string, and [isImageMessage]
    rejects an image whose width is one. *)
Theorem primitive_check_is_exact (kind : Validation.Kind) (v : Js.Value) :
  ((exists accepted, Validation.validate v (Validation.Primitive kind)
                     = Validation.Valid accepted)
   <-> Validation.runtimeKind v = Validation.runtimeOf kind)
  /\ (forall digits : string,
         RuntimeValidation.is_ (Js.VString digits) RuntimeValidation.number = false)
  /\ Validation.validate (Js.VString "1700000000000") RuntimeValidation.number
     = Validation.Invalid
         [Validation.mkViolation [] (Validation.EPrimitive Validation.KNumber)
            (Validation.Found Validation.RString)]
  /\ RuntimeValidation.fetchMessage Samples.stringTimestamp
     = Js.Throw (RuntimeValidation.StructError
         [Validation.mkViolation [Validation.Field "timestamp"]
            (Validation.EPrimitive Validation.KNumber)
            (Validation.Found Validation.RString)])
  /\ TypeGuards.isImageMessage Samples.imageWithStringWidth = false.
Proof.
  split; [|repeat split; reflexivity].
  unfold Validation.validate, Validation.validate_with.
  pose proof (check_Primitive_nil Validation.discoveryOrder kind [] v) as Hnil.
  destruct (Validation.check Validation.discoveryOrder
              (Validation.Primitive kind) [] v) as [|violation more].
  - split; [intros _; now apply Hnil|intros _; eexists; reflexivity].
  - split; [intros [accepted Habs]; discriminate|].
    intros Hkind. apply Hnil in Hkind. discriminate.
Qed.




(** C2, as the specification states it, fails on [fetchMessage]: the
    descriptor is well formed, the input is merely malformed, and the call
    ends with a throw. *)
Lemma assert_throws_on_malformed_input :
  Validation.wellFormed RuntimeValidation.MessageSchema = true
  /\ RuntimeValidation.fetchMessage Samples.stringTimestamp
     = Js.Throw (RuntimeValidation.StructError
         [Validation.mkViolation [Validation.Field "timestamp"]
            (Validation.EPrimitive Validation.KNumber)
            (Validation.Found Validation.RString)])
  /\ ~ (forall (v : Js.Value) (s : Validation.Shape),
           Validation.wellFormed s = true ->
           forall e, RuntimeValidation.assert v s <> Js.Throw e).
Proof.
  split; [reflexivity|]. split; [reflexivity|].
  intros Hnever.
  apply (Hnever Samples.stringTimestamp RuntimeValidation.MessageSchema
           eq_refl
           (RuntimeValidation.StructError
              [Validation.mkViolation [Validation.Field "timestamp"]
                 (Validation.EPrimitive Validation.KNumber)
                 (Validation.Found Validation.RString)])).
  reflexivity.
Qed.

(** C2, amended.  For every raw value and every descriptor the engine
    answers, and a mismatch is an ordered, non-empty list of violations.
    [assert] returns exactly when the value is accepted and otherwise throws
    a [StructError] that carries those violations; [is] answers [false]
    instead.  [fetchMessage] and [getLastNotification] hand the payload back
    when it is accepted and end with that throw when it is not. *)
Theorem assert_throws_exactly_the_failure (v : Js.Value) (s : Validation.Shape) :
  ((Validation.validate v s = Validation.Valid (Validation.mkValidated v s)
    /\ RuntimeValidation.assert v s = Js.Return tt
    /\ RuntimeValidation.is_ v s = true)
   \/ (exists failure,
          failure <> []
          /\ Validation.validate v s = Validation.Invalid failure
          /\ RuntimeValidation.assert v s
             = Js.Throw (RuntimeValidation.StructError failure)
          /\ RuntimeValidation.is_ v s = false))
  /\ RuntimeValidation.fetchMessage v
     = Js.bind (RuntimeValidation.assert v RuntimeValidation.MessageSchema)
               (fun _ => Js.Return v)
  /\ (RuntimeValidation.is_ v RuntimeValidation.MessageSchema = true ->
      RuntimeValidation.fetchMessage v = Js.Return v)
  /\ (forall failure,
         Validation.validate v RuntimeValidation.MessageSchema
         = Validation.Invalid failure ->
         RuntimeValidation.fetchMessage v
         = Js.Throw (RuntimeValidation.StructError failure))
  /\ (RuntimeValidation.is_ v RuntimeValidation.NotificationSchema = true ->
      RuntimeValidation.getLastNotification v = Js.Return v)
  /\ (forall failure,
         Validation.validate v RuntimeValidation.NotificationSchema
         = Validation.Invalid failure ->
         RuntimeValidation.getLastNotification v
         = Js.Throw (RuntimeValidation.StructError failure)).
Proof.
  split.
  - unfold RuntimeValidation.assert, RuntimeValidation.is_,
      Validation.validate, Validation.validate_with.
    destruct (Validation.check Validation.discoveryOrder s [] v)
      as [|violation more].
    + left. repeat split.
    + right. exists (violation :: more). repeat split. discriminate.
  - split; [reflexivity|].
    unfold RuntimeValidation.fetchMessage, RuntimeValidation.getLastNotification,
      RuntimeValidation.assert, RuntimeValidation.is_.
    repeat split.
    + destruct (Validation.validate v RuntimeValidation.MessageSchema);
        [reflexivity|discriminate].
    + intros failure ->. reflexivity.
    + destruct (Validation.validate v RuntimeValidation.NotificationSchema);
        [reflexivity|discriminate].
    + intros failure ->. reflexivity.
Qed.

Lemma assert_throws_exactly_the_failure_witness :
  RuntimeValidation.fetchMessage Samples.aliceWithReactions
  = Js.Return Samples.aliceWithReactions.
Proof.
  apply (proj1 (proj2 (proj2
           (assert_throws_exactly_the_failure Samples.aliceWithReactions
              RuntimeValidation.MessageSchema)))).
  reflexivity.
Defined.

(** ** Soundness of acceptance *)

Section ListFacts.
Context {A B : Type}.

Lemma flat_map_nil (f : A -> list B) (l : list A) :
  flat_map f l = [] -> forall x, In x l -> f x = [].
Proof.
  induction l as [|y rest IH]; intros Hnil x Hin; [contradiction|].
  simpl in Hnil. apply app_eq_nil in Hnil. destruct Hnil as [Hy Hrest].
  destruct Hin as [<-|Hin]; [exact Hy|now apply IH].
Qed.

Lemma In_indexed_from (l : list A) :
  forall a x, In x l -> exists i, In (i, x) (combine (seq a (length l)) l).
Proof.
  induction l as [|y rest IH]; intros a x Hin; [contradiction|].
  simpl. destruct Hin as [<-|Hin].
  - exists a. now left.
  - destruct (IH (S a) x Hin) as [i Hi]. exists i. now right.
Qed.

Lemma In_insertByKey (x y : string * A) (l : list (string * A)) :
  In y (Validation.insertByKey x l) <-> y = x \/ In y l.
Proof.
  induction l as [|z rest IH]; simpl.
  - intuition congruence.
  - destruct (String.leb (fst x) (fst z)); simpl; [intuition congruence|].
    rewrite IH. intuition congruence.
Qed.

Lemma In_sortByKey (y : string * A) (l : list (string * A)) :
  In y (Validation.sortByKey l) <-> In y l.
Proof.
  induction l as [|x rest IH]; simpl; [tauto|].
  rewrite In_insertByKey, IH. intuition congruence.
Qed.

End ListFacts.

Lemma sorted_offenders_nil (l : list (string * Validation.ValidationFailure)) :
  concat (map snd (Validation.sortByKey (filter Validation.offending l))) = [] ->
  forall kv, In kv l -> snd kv = [].
Proof.
  intros Hnil kv Hin.
  destruct (snd kv) as [|violation more] eqn:Hkv; [reflexivity|exfalso].
  assert (Hsorted : In kv (Validation.sortByKey (filter Validation.offending l))).
  { apply In_sortByKey, filter_In. split; [exact Hin|].
    unfold Validation.offending. now rewrite Hkv. }
  rewrite <- flat_map_concat_map in Hnil.
  pose proof (flat_map_nil snd _ Hnil kv Hsorted) as Habs.
  unfold Validation.ValidationFailure in *. congruence.
Qed.

Section Soundness.
Import Js Validation.
Variable enumerate : list (string * Value) -> list (string * Value).
Hypothesis enumerate_covers :
  forall entries kv, In kv entries -> In kv (enumerate entries).

Lemma check_sound :
  forall (shape : Shape) (p : Path) (v : Value),
    check enumerate shape p v = [] -> conforms shape v.
Proof.
  intros shape.
  induction shape as [kind|inner IH|fields IH|keyShape valueShape IHk IHv
                      |elementShape IH|members IH] using Shape_nested_ind;
    intros p v Hnil.
  - now apply (check_Primitive_nil enumerate kind p v).
  - simpl in *. now apply (IH p).
  - destruct v as [| | | | |entries]; try discriminate.
    rewrite check_Object in Hnil.
    simpl. exists entries. split; [reflexivity|].
    induction fields as [|[name fieldShape] rest IHrest]; [exact I|].
    inversion IH as [|? ? Hfield Hrest]; subst.
    simpl in Hnil. apply app_eq_nil in Hnil. destruct Hnil as [Hhere Hthere].
    split; [|now apply IHrest].
    unfold fieldViolations in Hhere. simpl in Hhere, Hfield.
    destruct (get name entries) as [x|].
    + now apply (Hfield (p ++ [Field name])).
    + destruct (isOptional fieldShape); [reflexivity|discriminate].
  - destruct v as [| | | | |entries]; try discriminate.
    rewrite check_Mapping in Hnil.
    simpl. exists entries. split; [reflexivity|].
    apply Forall_forall. intros kv Hin.
    pose proof (sorted_offenders_nil _ Hnil
                  (entryViolations enumerate keyShape valueShape p kv)) as Hkv.
    unfold entryViolations in Hkv at 2. simpl in Hkv.
    apply app_eq_nil in Hkv.
    + destruct Hkv as [Hkey Hvalue].
      split; [now apply (IHk _ _ Hkey)|now apply (IHv _ _ Hvalue)].
    + apply in_map. now apply enumerate_covers.
  - destruct v as [| | | |items|]; try discriminate.
    simpl in Hnil. simpl. exists items. split; [reflexivity|].
    apply Forall_forall. intros x Hin.
    destruct (In_indexed_from items 0 x Hin) as [i Hi].
    pose proof (flat_map_nil _ _ Hnil (i, x) Hi) as Hx. simpl in Hx.
    now apply (IH _ _ Hx).
  - rewrite check_TaggedUnion in Hnil.
    destruct (existsb (accepts enumerate p v) members) eqn:Hsome;
      [|discriminate].
    clear Hnil. simpl.
    induction members as [|[name member] rest IHrest]; [discriminate|].
    inversion IH as [|? ? Hmember Hrest]; subst.
    simpl in Hsome. apply orb_true_iff in Hsome.
    destruct Hsome as [Hhere|Hthere].
    + left. unfold accepts in Hhere. simpl in Hhere, Hmember.
      destruct (check enumerate member p v) eqn:Hcheck; [|discriminate].
      now apply (Hmember p).
    + right. now apply IHrest.
Qed.

End Soundness.

Lemma runtimeKind_string (v : Js.Value) :
  Validation.runtimeKind v = Validation.RString -> exists s, v = Js.VString s.
Proof. destruct v; try discriminate. intros _. now eexists. Qed.

Lemma runtimeKind_number (v : Js.Value) :
  Validation.runtimeKind v = Validation.RNumber -> exists n, v = Js.VNumber n.
Proof. destruct v; try discriminate. intros _. now eexists. Qed.

(** C1.  If a value is accepted then it conforms to the descriptor: every
    required field is present with the declared kind, recursively through
    nested objects, mappings, sequences and unions; this holds for [assert]
    as for the engine.  A payload that [fetchMessage] hands back is an
    object whose [id] and [sender] are strings and whose [timestamp] is a
    number, and if it has [reactions], every one of them is a number. *)
Theorem accepted_values_conform (v : Js.Value) (s : Validation.Shape) :
  ((exists accepted, Validation.validate v s = Validation.Valid accepted) ->
   Validation.conforms s v)
  /\ (RuntimeValidation.assert v s = Js.Return tt -> Validation.conforms s v)
  /\ (forall message,
         RuntimeValidation.fetchMessage v = Js.Return message ->
         message = v
         /\ exists entries id sender timestamp,
             v = Js.VObject entries
             /\ Js.get "id" entries = Some (Js.VString id)
             /\ Js.get "sender" entries = Some (Js.VString sender)
             /\ Js.get "timestamp" entries = Some (Js.VNumber timestamp)
             /\ forall reactions,
                 Js.get "reactions" entries = Some reactions ->
                 exists counts,
                   reactions = Js.VObject counts
                   /\ forall emoji count,
                       In (emoji, count) counts ->
                       exists n, count = Js.VNumber n).
Proof.
  assert (Hsound : forall shape,
             (exists accepted, Validation.validate v shape = Validation.Valid accepted) ->
             Validation.conforms shape v).
  { intros shape [accepted Hvalid].
    unfold Validation.validate, Validation.validate_with in Hvalid.
    destruct (Validation.check Validation.discoveryOrder shape [] v) eqn:Hcheck;
      [|discriminate].
    apply (check_sound Validation.discoveryOrder) with (p := []);
      [|exact Hcheck].
    intros entries kv Hin. exact Hin. }
  assert (Hassert : forall shape,
             RuntimeValidation.assert v shape = Js.Return tt ->
             Validation.conforms shape v).
  { intros shape Hret. apply Hsound.
    unfold RuntimeValidation.assert in Hret.
    destruct (Validation.validate v shape) as [accepted|failure];
      [now exists accepted|discriminate]. }
  split; [apply Hsound|]. split; [apply Hassert|].
  intros message Hfetch.
  unfold RuntimeValidation.fetchMessage in Hfetch.
  destruct (RuntimeValidation.assert v RuntimeValidation.MessageSchema)
    as [[]|e] eqn:Hret; simpl in Hfetch; [|discriminate].
  split; [congruence|].
  apply Hassert in Hret. simpl in Hret.
  destruct Hret as (entries & -> & Hid & Hsender & _ & Htimestamp & Hreactions & _).
  destruct (Js.get "id" entries) as [id|] eqn:Hgid; [|discriminate].
  destruct (Js.get "sender" entries) as [sender|] eqn:Hgsender; [|discriminate].
  destruct (Js.get "timestamp" entries) as [timestamp|] eqn:Hgtime; [|discriminate].
  apply runtimeKind_string in Hid. destruct Hid as [id' ->].
  apply runtimeKind_string in Hsender. destruct Hsender as [sender' ->].
  apply runtimeKind_number in Htimestamp. destruct Htimestamp as [timestamp' ->].
  exists entries, id', sender', timestamp'.
  split; [reflexivity|]. do 3 (split; [assumption|]).
  intros reactions Hget. rewrite Hget in Hreactions.
  destruct Hreactions as (counts & -> & Hcounts).
  exists counts. split; [reflexivity|].
  intros emoji count Hin.
  rewrite Forall_forall in Hcounts.
  destruct (Hcounts _ Hin) as [_ Hcount]. simpl in Hcount.
  now apply runtimeKind_number.
Qed.

Lemma accepted_values_conform_witness :
  Validation.conforms RuntimeValidation.MessageSchema Samples.aliceWithReactions.
Proof.
  apply (proj1 (accepted_values_conform Samples.aliceWithReactions
                  RuntimeValidation.MessageSchema)).
  eexists. reflexivity.
Defined.

(** ** Determinism: the order in which keys are visited does not show *)

Section KeyOrder.

Lemma leb_trans (a b c : string) :
  String.leb a b = true -> String.leb b c = true -> String.leb a c = true.
Proof.
  unfold String.leb.
  destruct (String.compare a b) eqn:Hab; try discriminate;
    destruct (String.compare b c) eqn:Hbc; try discriminate; intros _ _.
  - apply OrderedTypeEx.String_as_OT.cmp_eq in Hab. subst b. now rewrite Hbc.
  - apply OrderedTypeEx.String_as_OT.cmp_eq in Hab. subst b. now rewrite Hbc.
  - apply OrderedTypeEx.String_as_OT.cmp_eq in Hbc. subst c. now rewrite Hab.
  - apply OrderedTypeEx.String_as_OT.cmp_lt in Hab, Hbc.
    pose proof (OrderedTypeEx.String_as_OT.lt_trans _ _ _ Hab Hbc) as Hac.
    apply OrderedTypeEx.String_as_OT.cmp_lt in Hac.
    unfold OrderedTypeEx.String_as_OT.cmp in Hac. now rewrite Hac.
Qed.

Lemma leb_strict (a b : string) :
  String.leb a b = true -> a <> b -> String.leb b a = false.
Proof.
  intros Hab Hne. destruct (String.leb b a) eqn:Hba; [|reflexivity].
  exfalso. apply Hne. now apply String.leb_antisym.
Qed.

Context {A : Type}.

Lemma insertByKey_swap_le (x y : string * A) (l : list (string * A)) :
  String.leb (fst x) (fst y) = true -> fst x <> fst y ->
  Validation.insertByKey x (Validation.insertByKey y l)
  = Validation.insertByKey y (Validation.insertByKey x l).
Proof.
  intros Hxy Hne. pose proof (leb_strict _ _ Hxy Hne) as Hyx.
  induction l as [|z rest IH]; simpl.
  - now rewrite Hxy, Hyx.
  - destruct (String.leb (fst y) (fst z)) eqn:Hyz.
    + rewrite (leb_trans _ _ _ Hxy Hyz). simpl.
      now rewrite Hxy, Hyx, Hyz.
    + destruct (String.leb (fst x) (fst z)) eqn:Hxz; simpl.
      * now rewrite Hxz, Hyx, Hyz.
      * now rewrite Hxz, Hyz, IH.
Qed.

Lemma insertByKey_swap (x y : string * A) (l : list (string * A)) :
  fst x <> fst y ->
  Validation.insertByKey x (Validation.insertByKey y l)
  = Validation.insertByKey y (Validation.insertByKey x l).
Proof.
  intros Hne. destruct (String.leb_total (fst x) (fst y)) as [Hle|Hle].
  - now apply insertByKey_swap_le.
  - symmetry. apply insertByKey_swap_le; [exact Hle|congruence].
Qed.

(** Two arrangements of the same entries, no key twice, sort alike. *)
Lemma sortByKey_Permutation (l l' : list (string * A)) :
  Permutation l l' -> NoDup (map fst l) ->
  Validation.sortByKey l = Validation.sortByKey l'.
Proof.
  induction 1 as [|x l l' Hperm IH|x y l|l l' l'' H1 IH1 H2 IH2];
    intros Hnodup; simpl.
  - reflexivity.
  - inversion Hnodup; subst. now rewrite IH.
  - apply insertByKey_swap.
    simpl in Hnodup. inversion Hnodup as [|? ? Hnotin _]; subst.
    intros Heq. apply Hnotin. left. now symmetry.
  - rewrite IH1 by exact Hnodup. apply IH2.
    apply (Permutation_NoDup (Permutation_map fst H1) Hnodup).
Qed.

Lemma Permutation_filter_keep (g : A -> bool) (l l' : list A) :
  Permutation l l' -> Permutation (filter g l) (filter g l').
Proof.
  induction 1 as [|x l l' Hperm IH|x y l|l l' l'' H1 IH1 H2 IH2]; simpl.
  - constructor.
  - destruct (g x); [now constructor|exact IH].
  - destruct (g x), (g y); try apply Permutation_refl; apply perm_swap.
  - now apply Permutation_trans with (filter g l').
Qed.

Lemma NoDup_keys_filter (g : string * A -> bool) (l : list (string * A)) :
  NoDup (map fst l) -> NoDup (map fst (filter g l)).
Proof.
  induction l as [|x rest IH]; intros Hnodup; simpl; [constructor|].
  inversion Hnodup as [|? ? Hnotin Hrest]; subst.
  destruct (g x); simpl; [|now apply IH].
  constructor; [|now apply IH].
  intros Hin. apply Hnotin.
  apply in_map_iff in Hin. destruct Hin as (y & Hy & Hin).
  apply filter_In in Hin. apply in_map_iff. exists y. tauto.
Qed.

End KeyOrder.

Section UniqueKeys.
Import Js Validation.

Lemma uniqueKeys_items (items : list Value) :
  uniqueKeys (VArray items) -> forall x, In x items -> uniqueKeys x.
Proof.
  simpl. induction items as [|y rest IH]; intros Hall x Hin; [contradiction|].
  destruct Hall as [Hy Hrest].
  destruct Hin as [<-|Hin]; [exact Hy|now apply IH].
Qed.

Lemma uniqueKeys_entries (entries : list (string * Value)) :
  uniqueKeys (VObject entries) ->
  NoDup (map fst entries) /\ forall kv, In kv entries -> uniqueKeys (snd kv).
Proof.
  simpl. intros [Hnodup Hall]. split; [exact Hnodup|]. clear Hnodup.
  induction entries as [|[k y] rest IH]; intros kv Hin; [contradiction|].
  destruct Hall as [Hy Hrest].
  destruct Hin as [<-|Hin]; [exact Hy|now apply IH].
Qed.

Lemma uniqueKeys_get (entries : list (string * Value)) (name : string) (x : Value) :
  uniqueKeys (VObject entries) -> get name entries = Some x -> uniqueKeys x.
Proof.
  intros Hunique Hget.
  apply uniqueKeys_entries in Hunique. destruct Hunique as [_ Hall].
  induction entries as [|[k y] rest IH]; [discriminate|].
  simpl in Hget. destruct (String.eqb k name).
  - injection Hget as <-. apply (Hall (k, y)). now left.
  - apply IH; [|exact Hget]. intros kv Hin. apply Hall. now right.
Qed.

End UniqueKeys.

Section Determinism.
Import Js Validation.
Variables enumerate enumerate' : list (string * Value) -> list (string * Value).
Hypothesis enumerate_permutes : forall entries, Permutation (enumerate entries) entries.
Hypothesis enumerate'_permutes : forall entries, Permutation (enumerate' entries) entries.

Lemma check_any_enumeration :
  forall (shape : Shape) (p : Path) (v : Value),
    uniqueKeys v -> check enumerate shape p v = check enumerate' shape p v.
Proof.
  intros shape.
  induction shape as [kind|inner IH|fields IH|keyShape valueShape IHk IHv
                      |elementShape IH|members IH] using Shape_nested_ind;
    intros p v Hunique.
  - reflexivity.
  - simpl. now apply IH.
  - destruct v as [| | | | |entries]; try reflexivity.
    rewrite !check_Object.
    rewrite !flat_map_concat_map. f_equal.
    apply map_ext_in. intros [name fieldShape] Hin.
    rewrite Forall_forall in IH. specialize (IH _ Hin). simpl in IH.
    unfold fieldViolations. simpl.
    destruct (get name entries) as [x|] eqn:Hget; [|reflexivity].
    apply IH. now apply (uniqueKeys_get entries name).
  - destruct v as [| | | | |entries]; try reflexivity.
    rewrite !check_Mapping.
    destruct (uniqueKeys_entries entries Hunique) as [Hnodup Hall].
    assert (Hsame : forall kv, In kv entries ->
              entryViolations enumerate' keyShape valueShape p kv
              = entryViolations enumerate keyShape valueShape p kv).
    { intros kv Hin. unfold entryViolations.
      rewrite (IHk _ (VString (fst kv)) I).
      now rewrite (IHv _ (snd kv) (Hall kv Hin)). }
    rewrite (map_ext_in _ _ (enumerate' entries)
               (fun kv Hin => Hsame kv
                  (Permutation_in kv (enumerate'_permutes entries) Hin))).
    do 2 f_equal.
    apply sortByKey_Permutation.
    + apply Permutation_filter_keep, Permutation_map.
      apply Permutation_trans with entries;
        [apply enumerate_permutes|apply Permutation_sym, enumerate'_permutes].
    + apply NoDup_keys_filter. rewrite map_map. simpl.
      apply (Permutation_NoDup
               (Permutation_map fst (Permutation_sym (enumerate_permutes entries)))
               Hnodup).
  - destruct v as [| | | |items|]; try reflexivity.
    simpl. rewrite !flat_map_concat_map. f_equal.
    apply map_ext_in. intros [i x] Hin.
    apply IH. apply (uniqueKeys_items items Hunique).
    unfold indexed in Hin. now apply in_combine_r in Hin.
  - rewrite !check_TaggedUnion.
    assert (Hsame : existsb (accepts enumerate p v) members
                    = existsb (accepts enumerate' p v) members).
    { induction members as [|[name member] rest IHrest]; [reflexivity|].
      inversion IH as [|? ? Hmember Hrest]; subst.
      simpl. unfold accepts at 1 3. simpl. simpl in Hmember.
      rewrite (Hmember p v Hunique). now rewrite IHrest. }
    now rewrite Hsame.
Qed.

End Determinism.

(** C7.  Two runs of the validation on the same raw value and the same
    descriptor give the same result, success or failure, with the same
    violations in the same order, whatever the order in which either run
    visits the keys of a mapping.  The raw value is a JavaScript value: no
    key occurs twice in one object. *)
Theorem validation_is_deterministic
        (enumerate enumerate' : list (string * Js.Value) -> list (string * Js.Value))
        (v : Js.Value) (s : Validation.Shape) :
  (forall entries, Permutation (enumerate entries) entries) ->
  (forall entries, Permutation (enumerate' entries) entries) ->
  Validation.uniqueKeys v ->
  Validation.validate_with enumerate v s = Validation.validate_with enumerate' v s
  /\ Validation.validate_with enumerate v s = Validation.validate v s.
Proof.
  intros Hperm Hperm' Hunique.
  unfold Validation.validate, Validation.validate_with.
  rewrite (check_any_enumeration enumerate enumerate' Hperm Hperm' s [] v Hunique).
  rewrite (check_any_enumeration enumerate' Validation.discoveryOrder Hperm'
             (fun entries => Permutation_refl entries) s [] v Hunique).
  split; reflexivity.
Qed.

Lemma validation_is_deterministic_witness :
  Validation.validate_with (@rev (string * Js.Value)) Samples.badReactions
    (RuntimeValidation.record RuntimeValidation.string_ RuntimeValidation.number)
  = Validation.validate Samples.badReactions
      (RuntimeValidation.record RuntimeValidation.string_ RuntimeValidation.number).
Proof.
  refine (proj2 (validation_is_deterministic
                   (@rev (string * Js.Value)) Validation.discoveryOrder
                   Samples.badReactions
                   (RuntimeValidation.record RuntimeValidation.string_
                      RuntimeValidation.number) _ _ _)).
  - intros entries. apply Permutation_sym, Permutation_rev.
  - intros entries. apply Permutation_refl.
  - simpl. repeat split; try exact I.
    repeat constructor; simpl; intuition discriminate.
Defined.

Example badReactions_sorted_violations :
  Validation.validate Samples.badReactions
    (RuntimeValidation.record RuntimeValidation.string_ RuntimeValidation.number)
  = Validation.Invalid
      [Validation.mkViolation [Validation.Field "apple"]
         (Validation.EPrimitive Validation.KNumber)
         (Validation.Found Validation.RNull);
       Validation.mkViolation [Validation.Field "zebra"]
         (Validation.EPrimitive Validation.KNumber)
         (Validation.Found Validation.RString)].
Proof. reflexivity. Qed.

(** ** The notification that is displayed *)

Section DisplayFacts.
Import Js Validation RuntimeValidation.

Lemma is_accepts (v : Value) (name : string) (s : Shape) :
  is_ v s = accepts discoveryOrder [] v (name, s).
Proof.
  unfold is_, accepts, validate, validate_with. simpl.
  now destruct (check discoveryOrder s [] v).
Qed.

(** X11.  After the assertion against [NotificationSchema] one of the three
    tests succeeds: the only error [displayLastNotification] can end with
    is the one thrown by the assertion, never the one of its last branch. *)
Lemma displayLastNotification_never_falls_through (data : Value) (e : Error) :
  displayLastNotification data = Throw e ->
  exists failure, e = StructError failure /\ failure <> [].
Proof.
  unfold displayLastNotification, getLastNotification, assert.
  unfold validate at 1. unfold validate_with.
  destruct (check discoveryOrder NotificationSchema [] data)
    as [|violation more] eqn:Hcheck; simpl.
  - unfold NotificationSchema, union in Hcheck.
    rewrite check_TaggedUnion in Hcheck. simpl in Hcheck.
    rewrite <- !is_accepts in Hcheck.
    destruct (is_ data FriendRequestSchema); [discriminate|].
    destruct (is_ data NewMessageSchema); [discriminate|].
    destruct (is_ data ApplicationUpdateSchema); discriminate.
  - intros Hthrow. injection Hthrow as <-.
    exists (violation :: more). split; [reflexivity|discriminate].
Qed.

Lemma displayLastNotification_find (data : Value) :
  displayLastNotification data
  = bind (getLastNotification data)
      (fun notification =>
         match find (fun test => is_ notification (snd test)) notificationTests with
         | Some (label, _) => Return (label, notification)
         | None =>
             Throw (ErrorMessage
               "This can never happen, because we already asserted that it is one of the types")
         end).
Proof.
  unfold displayLastNotification.
  destruct (getLastNotification data) as [notification|e]; [|reflexivity].
  simpl.
  destruct (is_ notification FriendRequestSchema); [reflexivity|].
  destruct (is_ notification NewMessageSchema); [reflexivity|].
  destruct (is_ notification ApplicationUpdateSchema); reflexivity.
Qed.

(** What one of the member schemas accepts, the union accepts. *)
Lemma getLastNotification_of_member (data : Value) :
  is_ data FriendRequestSchema
  || is_ data NewMessageSchema
  || is_ data ApplicationUpdateSchema = true ->
  getLastNotification data = Return data.
Proof.
  intros Hmember.
  unfold getLastNotification, assert. unfold validate at 1. unfold validate_with.
  unfold NotificationSchema, union. rewrite check_TaggedUnion. simpl.
  rewrite <- !is_accepts.
  rewrite orb_false_r, orb_assoc, Hmember. reflexivity.
Qed.

End DisplayFacts.

(** C4.  [createSafeNotification] classifies a message by the first guard, in
    the order text, image, video, that accepts it: the notification is the
    one of the earliest-declared matching member.  A message that the text
    guard accepts is a text message even when the image guard accepts it as
    well; the object with [text: "hi"] and [imageUrl: "a.jpg"] is reported as
    a text.  [displayLastNotification] does the same with the schemas: it
    writes the label of the first of its tests, in the order friend request,
    new message, application update, that accepts the notification, so a
    notification that both the friend request and the new message schema
    accept is displayed as a friend request. *)
Theorem createSafeNotification_earliest_guard (message : Js.JsObject) :
  TypeGuards.createSafeNotification message
  = match find (fun g => snd g message) TypeGuards.guards with
    | Some (tag, _) => Js.Return (TypeGuards.notification tag message)
    | None => Js.Throw "Unknown message type"
    end
  /\ (TypeGuards.isTextMessage message = true ->
      TypeGuards.isImageMessage message = true ->
      TypeGuards.createSafeNotification message
      = Js.Return (TypeGuards.notification TypeGuards.text message))
  /\ (TypeGuards.isTextMessage message = false ->
      TypeGuards.isImageMessage message = true ->
      TypeGuards.isVideoMessage message = true ->
      TypeGuards.createSafeNotification message
      = Js.Return (TypeGuards.notification TypeGuards.image message))
  /\ TypeGuards.createSafeNotification
       [("text", Js.VString "hi"); ("imageUrl", Js.VString "a.jpg")]
     = Js.Return ("undefined texted " ++ TypeGuards.quote ++ "hi" ++ TypeGuards.quote)%string
  /\ (forall data : Js.Value,
         RuntimeValidation.displayLastNotification data
         = Js.bind (RuntimeValidation.getLastNotification data)
             (fun notification =>
                match find (fun test => RuntimeValidation.is_ notification (snd test))
                           RuntimeValidation.notificationTests with
                | Some (label, _) => Js.Return (label, notification)
                | None =>
                    Js.Throw (RuntimeValidation.ErrorMessage
                      "This can never happen, because we already asserted that it is one of the types")
                end))
  /\ (forall data : Js.Value,
         RuntimeValidation.is_ data RuntimeValidation.FriendRequestSchema = true ->
         RuntimeValidation.is_ data RuntimeValidation.NewMessageSchema = true ->
         RuntimeValidation.displayLastNotification data
         = Js.Return ("Friend request received:", data))
  /\ (forall data : Js.Value,
         RuntimeValidation.is_ data RuntimeValidation.FriendRequestSchema = false ->
         RuntimeValidation.is_ data RuntimeValidation.NewMessageSchema = true ->
         RuntimeValidation.displayLastNotification data
         = Js.Return ("New message:", data))
  /\ RuntimeValidation.is_ Samples.friendRequestWithText
       RuntimeValidation.NewMessageSchema = true
  /\ RuntimeValidation.displayLastNotification Samples.friendRequestWithText
     = Js.Return ("Friend request received:", Samples.friendRequestWithText).
Proof.
  split; [apply createSafeNotification_find|].
  split; [|split; [|split; [|split; [|split; [|split; [|split]]]]]].
  - intros Htext _. rewrite createSafeNotification_find. simpl.
    now rewrite Htext.
  - intros Htext Himage _. rewrite createSafeNotification_find. simpl.
    now rewrite Htext, Himage.
  - reflexivity.
  - apply displayLastNotification_find.
  - intros data Hfriend _.
    rewrite displayLastNotification_find.
    rewrite getLastNotification_of_member by (rewrite Hfriend; reflexivity).
    simpl. now rewrite Hfriend.
  - intros data Hfriend Hnew.
    rewrite displayLastNotification_find.
    rewrite getLastNotification_of_member
      by (rewrite Hfriend, Hnew; reflexivity).
    simpl. now rewrite Hfriend, Hnew.
  - reflexivity.
  - reflexivity.
Qed.

Lemma createSafeNotification_earliest_guard_witness :
  TypeGuards.isTextMessage Samples.textWithImage = true
  /\ TypeGuards.isImageMessage Samples.textWithImage = true
  /\ TypeGuards.createSafeNotification Samples.textWithImage
     = Js.Return ("Alice texted " ++ TypeGuards.quote ++ "hi" ++ TypeGuards.quote)%string.
Proof.
  split; [reflexivity|]. split; [reflexivity|].
  apply (proj1 (proj2 (createSafeNotification_earliest_guard Samples.textWithImage)));
    reflexivity.
Defined.


(** ** Worked examples *)

Example missing_fields_in_declaration_order :
  Validation.validate (Js.VObject [("sender", Js.VString "Bob")])
    (RuntimeValidation.object
       [("id", RuntimeValidation.string_);
        ("sender", RuntimeValidation.string_);
        ("timestamp", RuntimeValidation.number)])
  = Validation.Invalid
      [Validation.mkViolation [Validation.Field "id"]
         (Validation.EPrimitive Validation.KString) Validation.Missing;
       Validation.mkViolation [Validation.Field "timestamp"]
         (Validation.EPrimitive Validation.KNumber) Validation.Missing].
Proof. reflexivity. Qed.

Example new_message_is_displayed :
  RuntimeValidation.displayLastNotification
    (Js.VObject [("id", Js.VString "9"); ("sender", Js.VString "Dana");
                 ("text", Js.VString "hello"); ("timestamp", Js.VNumber 12)])
  = Js.Return ("New message:",
               Js.VObject [("id", Js.VString "9"); ("sender", Js.VString "Dana");
                           ("text", Js.VString "hello");
                           ("timestamp", Js.VNumber 12)]).
Proof. reflexivity. Qed.

Example plain_message_is_no_notification :
  RuntimeValidation.getLastNotification Samples.aliceWithReactions
  = Js.Throw (RuntimeValidation.StructError
      [Validation.mkViolation []
         (Validation.EUnion ["FriendRequest"; "NewMessage"; "ApplicationUpdate"])
         (Validation.Found Validation.RObject)]).
Proof. reflexivity. Qed.

Example chatGPT_response_violations :
  RuntimeValidation.assertChatGPTResponse
    (Js.VObject
       [("themes",
         Js.VArray
           [Js.VObject [("summary", Js.VString "pricing");
                        ("answerIds", Js.VArray [Js.VNumber 1; Js.VString "2"])];
            Js.VObject [("summary", Js.VNumber 0);
                        ("answerIds", Js.VArray [Js.VNull])]])])
  = Js.Throw (RuntimeValidation.StructError
      [Validation.mkViolation
         [Validation.Field "themes"; Validation.Index 0;
          Validation.Field "answerIds"; Validation.Index 1]
         (Validation.EPrimitive Validation.KNumber)
         (Validation.Found Validation.RString);
       Validation.mkViolation
         [Validation.Field "themes"; Validation.Index 1;
          Validation.Field "summary"]
         (Validation.EPrimitive Validation.KString)
         (Validation.Found Validation.RNumber);
       Validation.mkViolation
         [Validation.Field "themes"; Validation.Index 1;
          Validation.Field "answerIds"; Validation.Index 0]
         (Validation.EPrimitive Validation.KNumber)
         (Validation.Found Validation.RNull)]).
Proof. reflexivity. Qed.

Example image_notification :
  TypeGuards.createSafeNotification
    [("id", Js.VString "2"); ("sender", Js.VString "Bob");
     ("timestamp", Js.VNumber 1700000000000);
     ("imageUrl", Js.VString "photo.jpg");
     ("width", Js.VNumber 640); ("height", Js.VNumber 480)]
  = Js.Return "Bob sent an image (640x480)".
Proof. reflexivity. Qed.

Example string_width_is_no_image :
  TypeGuards.createSafeNotification Samples.imageWithStringWidth
  = Js.Throw "Unknown message type".
Proof. reflexivity. Qed.

Example batch_of_ten_by_three :
  Generics.batchArray 20 [1; 2; 3; 4; 5; 6; 7; 8; 9; 10]%Z 3
  = Some [[1; 2; 3]; [4; 5; 6]; [7; 8; 9]; [10]]%Z.
Proof. reflexivity. Qed.

Example batch_of_ten_by_four :
  Generics.batchArray 20 [1; 2; 3; 4; 5; 6; 7; 8; 9; 10]%Z 4
  = Some [[1; 2; 3; 4]; [5; 6; 7; 8]; [9; 10]]%Z.
Proof. reflexivity. Qed.

(* ================================================================== *)
(** * Further properties of the generic functions *)
(* ================================================================== *)

(** X1.  [getMiddleElement] answers [undefined] exactly for the empty
    array.  For any other array it returns an element of the array with as
    many elements before it as after it, or one more before it (when the
    length is even). *)
Theorem getMiddleElement_is_in_the_middle {T : Type} (array : list T) :
  (Generics.getMiddleElement array = None <-> array = [])
  /\ (array <> [] ->
      exists before middle after,
        array = before ++ middle :: after
        /\ Generics.getMiddleElement array = Some middle
        /\ (length before = length after
            \/ length before = S (length after))).
Proof.
  unfold Generics.getMiddleElement.
  assert (Hpos : array <> [] -> (length array / 2 < length array)%nat).
  { intros Hne. destruct array; [congruence|].
    apply Nat.div_lt; simpl; lia. }
  split.
  - split.
    + intros Hnone. destruct array as [|x rest]; [reflexivity|].
      apply nth_error_None in Hnone.
      assert (length (x :: rest) / 2 < length (x :: rest))%nat
        by (apply Hpos; discriminate).
      lia.
    + intros ->. reflexivity.
  - intros Hne. specialize (Hpos Hne).
    destruct (nth_error array (length array / 2)) as [middle|] eqn:Hnth.
    + destruct (nth_error_split _ _ Hnth) as (before & after & Hsplit & Hlen).
      exists before, middle, after. split; [exact Hsplit|]. split; [reflexivity|].
      assert (Htotal : length array = (length before + S (length after))%nat).
      { rewrite Hsplit at 1. rewrite length_app. reflexivity. }
      pose proof (Nat.div_mod_eq (length array) 2) as Hdiv.
      pose proof (Nat.mod_upper_bound (length array) 2 ltac:(lia)) as Hmod.
      lia.
    + apply nth_error_None in Hnth. lia.
Qed.

Lemma getMiddleElement_is_in_the_middle_witness :
  exists before middle after,
    [1; 2; 3; 4; 5]%Z = before ++ middle :: after
    /\ Generics.getMiddleElement [1; 2; 3; 4; 5]%Z = Some middle
    /\ (length before = length after \/ length before = S (length after)).
Proof.
  apply (proj2 (getMiddleElement_is_in_the_middle [1; 2; 3; 4; 5]%Z)).
  discriminate.
Defined.

Section MergeFacts.
Import Js.

Lemma get_set (name k : string) (v : Value) (o : JsObject) :
  get name (Generics.set k v o)
  = if String.eqb k name then Some v else get name o.
Proof.
  induction o as [|[k' x] rest IH]; simpl.
  - reflexivity.
  - destruct (String.eqb_spec k' k) as [->|Hne]; simpl.
    + now destruct (String.eqb k name).
    + rewrite IH.
      destruct (String.eqb_spec k' name) as [->|Hne']; [|reflexivity].
      destruct (String.eqb_spec k name) as [->|_]; [congruence|reflexivity].
Qed.

Lemma keys_set (k' k : string) (v : Value) (o : JsObject) :
  In k' (map fst (Generics.set k v o)) <-> k' = k \/ In k' (map fst o).
Proof.
  induction o as [|[k0 x] rest IH]; simpl.
  - intuition congruence.
  - destruct (String.eqb_spec k0 k) as [->|Hne]; simpl.
    + intuition congruence.
    + rewrite IH. intuition congruence.
Qed.

Lemma NoDup_set (k : string) (v : Value) (o : JsObject) :
  NoDup (map fst o) -> NoDup (map fst (Generics.set k v o)).
Proof.
  induction o as [|[k0 x] rest IH]; simpl; intros Hnodup.
  - constructor; [intros []|constructor].
  - inversion Hnodup as [|? ? Hnotin Hrest]; subst.
    destruct (String.eqb_spec k0 k) as [->|Hne]; simpl.
    + now constructor.
    + constructor; [|now apply IH].
      rewrite keys_set. intuition congruence.
Qed.

Lemma get_absent (name : string) (o : JsObject) :
  ~ In name (map fst o) -> get name o = None.
Proof.
  induction o as [|[k x] rest IH]; simpl; intros Hnotin; [reflexivity|].
  destruct (String.eqb_spec k name) as [->|_]; [tauto|].
  apply IH. tauto.
Qed.

Lemma get_spread (name : string) (source : JsObject) :
  NoDup (map fst source) ->
  forall target,
    get name (Generics.spread target source)
    = match get name source with
      | Some v => Some v
      | None => get name target
      end.
Proof.
  unfold Generics.spread.
  induction source as [|[k x] rest IH]; intros Hnodup target; [reflexivity|].
  simpl in *. inversion Hnodup as [|? ? Hnotin Hrest]; subst.
  rewrite (IH Hrest). rewrite get_set.
  destruct (String.eqb_spec k name) as [->|_].
  - now rewrite (get_absent name rest Hnotin).
  - reflexivity.
Qed.

Lemma keys_spread (k : string) (source : JsObject) :
  forall target,
    In k (map fst (Generics.spread target source))
    <-> In k (map fst target) \/ In k (map fst source).
Proof.
  unfold Generics.spread.
  induction source as [|[k0 x] rest IH]; intros target; simpl; [tauto|].
  rewrite IH, keys_set. intuition congruence.
Qed.

Lemma NoDup_spread (source : JsObject) :
  forall target,
    NoDup (map fst target) -> NoDup (map fst (Generics.spread target source)).
Proof.
  unfold Generics.spread.
  induction source as [|[k0 x] rest IH]; intros target Hnodup; simpl;
    [exact Hnodup|].
  apply IH. now apply NoDup_set.
Qed.

Lemma NoDup_mergeObjects (obj1 obj2 : JsObject) :
  NoDup (map fst (Generics.mergeObjects obj1 obj2)).
Proof.
  unfold Generics.mergeObjects. apply NoDup_spread, NoDup_spread. constructor.
Qed.

Lemma get_mergeObjects (obj1 obj2 : JsObject) (name : string) :
  NoDup (map fst obj1) -> NoDup (map fst obj2) ->
  get name (Generics.mergeObjects obj1 obj2)
  = match get name obj2 with
    | Some v => Some v
    | None => get name obj1
    end.
Proof.
  intros H1 H2. unfold Generics.mergeObjects.
  rewrite (get_spread name obj2 H2), (get_spread name obj1 H1).
  simpl. now destruct (get name obj1).
Qed.

End MergeFacts.

(** X2.  A property read from [mergeObjects(obj1, obj2)] gives the value of
    [obj2] when [obj2] has the property and the value of [obj1] otherwise:
    the second object wins, and nothing of the first is lost but what the
    second overwrites. *)
Theorem mergeObjects_second_wins (obj1 obj2 : Js.JsObject) (name : string) :
  NoDup (map fst obj1) -> NoDup (map fst obj2) ->
  Js.get name (Generics.mergeObjects obj1 obj2)
  = match Js.get name obj2 with
    | Some v => Some v
    | None => Js.get name obj1
    end.
Proof.
  intros Hobj1 Hobj2. unfold Generics.mergeObjects.
  rewrite (get_spread name obj2 Hobj2), (get_spread name obj1 Hobj1).
  simpl. now destruct (Js.get name obj1).
Qed.

Lemma mergeObjects_second_wins_witness :
  Js.get "name"
    (Generics.mergeObjects
       [("name", Js.VString "Alice"); ("id", Js.VString "1")]
       [("age", Js.VNumber 30); ("name", Js.VString "Bob")])
  = Some (Js.VString "Bob").
Proof.
  apply (mergeObjects_second_wins
           [("name", Js.VString "Alice"); ("id", Js.VString "1")]
           [("age", Js.VNumber 30); ("name", Js.VString "Bob")] "name");
    repeat constructor; simpl; intuition discriminate.
Defined.

(** X3.  The object that [mergeObjects] builds has no key twice, and its
    keys are exactly the keys of the two arguments. *)
Theorem mergeObjects_keys (obj1 obj2 : Js.JsObject) :
  NoDup (map fst (Generics.mergeObjects obj1 obj2))
  /\ forall name,
       Js.has name (Generics.mergeObjects obj1 obj2)
       = Js.has name obj1 || Js.has name obj2.
Proof.
  split; [apply NoDup_mergeObjects|].
  intros name.
  assert (Hhas : forall o, Js.has name o = true <-> In name (map fst o)).
  { intros o. unfold Js.has. induction o as [|[k x] rest IH]; simpl.
    - split; [discriminate|tauto].
    - destruct (String.eqb_spec k name) as [->|Hne].
      + split; [now left|reflexivity].
      + rewrite IH. intuition congruence. }
  apply eq_true_iff_eq. rewrite orb_true_iff, !Hhas.
  unfold Generics.mergeObjects. rewrite !keys_spread. simpl. tauto.
Qed.

(** X4.  Merging is associative for property reads: merging three objects
    in either grouping gives objects that answer every read alike. *)
Theorem mergeObjects_assoc (a b c : Js.JsObject) (name : string) :
  NoDup (map fst a) -> NoDup (map fst b) -> NoDup (map fst c) ->
  Js.get name (Generics.mergeObjects (Generics.mergeObjects a b) c)
  = Js.get name (Generics.mergeObjects a (Generics.mergeObjects b c)).
Proof.
  intros Ha Hb Hc.
  rewrite (get_mergeObjects _ c name (NoDup_mergeObjects a b) Hc).
  rewrite (get_mergeObjects a _ name Ha (NoDup_mergeObjects b c)).
  rewrite (get_mergeObjects a b name Ha Hb).
  rewrite (get_mergeObjects b c name Hb Hc).
  now destruct (Js.get name c), (Js.get name b).
Qed.

Lemma mergeObjects_assoc_witness :
  Js.get "theme"
    (Generics.mergeObjects
       (Generics.mergeObjects [("theme", Js.VString "light")]
                              [("theme", Js.VString "dark")])
       [("notifications", Js.VBool true)])
  = Js.get "theme"
      (Generics.mergeObjects [("theme", Js.VString "light")]
         (Generics.mergeObjects [("theme", Js.VString "dark")]
                                [("notifications", Js.VBool true)])).
Proof.
  apply (mergeObjects_assoc [("theme", Js.VString "light")]
           [("theme", Js.VString "dark")]
           [("notifications", Js.VBool true)] "theme");
    repeat constructor; simpl; intuition.
Defined.

Section BatchAndTransform.
Context {T U : Type}.
Variable f : T -> U.

Lemma slice_map (array : list T) (start finish : Z) :
  Generics.slice (map f array) start finish
  = map f (Generics.slice array start finish).
Proof.
  unfold Generics.slice. rewrite length_map.
  now rewrite skipn_map, firstn_map.
Qed.

Lemma batchArray_loop_map (array : list T) (maxBatchSize : Z) (fuel : nat) :
  forall (i : Z) (batches : list (list T)),
    Generics.batchArray_loop fuel (map f array) maxBatchSize i
      (map (map f) batches)
    = option_map (map (map f))
        (Generics.batchArray_loop fuel array maxBatchSize i batches).
Proof.
  induction fuel as [|fuel IH]; intros i batches; [reflexivity|].
  simpl. rewrite length_map.
  destruct (i <? Z.of_nat (length array))%Z; [|reflexivity].
  rewrite <- IH. now rewrite map_app, slice_map.
Qed.

End BatchAndTransform.

Lemma transform_of_element_reader {T U : Type}
      (transformer : T -> nat -> list T -> U) (f : T -> U) (value : list T) :
  (forall x i a, transformer x i a = f x) ->
  Generics.transform value transformer = map f value.
Proof.
  intros Hreads. unfold Generics.transform.
  assert (Hfrom : forall (l : list T) (start : nat),
             map (fun ix => transformer (snd ix) (fst ix) value)
                 (combine (seq start (length l)) l)
             = map f l).
  { induction l as [|x rest IH]; intros start; [reflexivity|].
    simpl. now rewrite Hreads, IH. }
  apply Hfrom.
Qed.

(** X5.  Batching commutes with transforming when the transformer reads its
    element only: the batches of the transformed array are the transformed
    batches of the array, for every batch size and with the same fuel (so
    the one call finishes exactly when the other does).  A transformer that
    reads the index it is handed breaks this: within a batch the indices
    start from zero again. *)
Theorem batchArray_of_transform {T U : Type}
        (transformer : T -> nat -> list T -> U) (f : T -> U)
        (array : list T) (maxBatchSize : Z) (fuel : nat) :
  (forall x i a, transformer x i a = f x) ->
  Generics.batchArray fuel (Generics.transform array transformer) maxBatchSize
  = option_map (map (fun batch => Generics.transform batch transformer))
      (Generics.batchArray fuel array maxBatchSize)
  /\ Generics.batchArray 3
       (Generics.transform ["a"; "b"] (fun _ (i : nat) _ => i)) 1
     = Some [[0]; [1]]
  /\ option_map (map (fun batch => Generics.transform batch (fun _ (i : nat) _ => i)))
       (Generics.batchArray 3 ["a"; "b"] 1)
     = Some [[0]; [0]].
Proof.
  intros Hreads. split; [|split; reflexivity].
  rewrite (transform_of_element_reader transformer f array Hreads).
  unfold Generics.batchArray.
  etransitivity;
    [exact (batchArray_loop_map f array maxBatchSize fuel 0 [])|].
  destruct (Generics.batchArray_loop fuel array maxBatchSize 0 [])
    as [batches|]; [|reflexivity].
  simpl. f_equal. apply map_ext. intros batch.
  symmetry. now apply transform_of_element_reader.
Qed.

Lemma batchArray_of_transform_witness :
  Generics.batchArray 5
    (Generics.transform [1; 2; 3]%Z (fun x _ _ => Js.numberToString x)) 2
  = option_map
      (map (fun batch =>
              Generics.transform batch (fun x _ _ => Js.numberToString x)))
      (Generics.batchArray 5 [1; 2; 3]%Z 2).
Proof.
  apply (proj1 (batchArray_of_transform
                  (fun (x : Z) (_ : nat) (_ : list Z) => Js.numberToString x)
                  Js.numberToString [1; 2; 3]%Z 2 5
                  (fun x i a => eq_refl))).
Defined.

Section BatchSizes.
Context {T : Type}.
Variable array : list T.
Variable maxBatchSize : Z.
Hypothesis maxBatchSize_pos : (1 <= maxBatchSize)%Z.

Lemma fullExceptLast_nonempty (batch : list T) (rest : list (list T)) :
  Generics.fullExceptLast maxBatchSize (batch :: rest) ->
  (1 <= Z.of_nat (length (concat (batch :: rest))))%Z.
Proof.
  simpl. rewrite length_app. intros [Hbatch _].
  destruct rest; lia.
Qed.

Lemma fullExceptLast_count (batches : list (list T)) :
  Generics.fullExceptLast maxBatchSize batches ->
  Z.of_nat (length batches)
  = ((Z.of_nat (length (concat batches)) + maxBatchSize - 1) / maxBatchSize)%Z.
Proof.
  induction batches as [|batch rest IH]; intros Hfull.
  - simpl. symmetry. apply Z.div_small. lia.
  - destruct Hfull as [Hbatch Hrest]. specialize (IH Hrest).
    destruct rest as [|next rest'].
    + simpl. rewrite app_nil_r.
      apply (Z.div_unique _ _ 1 (Z.of_nat (length batch) - 1)); lia.
    + change (concat (batch :: next :: rest'))
        with (batch ++ concat (next :: rest')).
      rewrite length_app.
      change (length (batch :: next :: rest'))
        with (S (length (next :: rest'))).
      rewrite Nat2Z.inj_succ, IH, Nat2Z.inj_add, Hbatch.
      replace (maxBatchSize + Z.of_nat (length (concat (next :: rest')))
               + maxBatchSize - 1)%Z
        with (Z.of_nat (length (concat (next :: rest'))) + maxBatchSize - 1
              + 1 * maxBatchSize)%Z by lia.
      rewrite Z.div_add by lia. lia.
Qed.

Lemma fullExceptLast_nth (batches : list (list T)) :
  Generics.fullExceptLast maxBatchSize batches ->
  forall k, (S k < length batches)%nat ->
            Z.of_nat (length (nth k batches [])) = maxBatchSize.
Proof.
  induction batches as [|batch rest IH]; intros Hfull k Hk; [simpl in Hk; lia|].
  destruct Hfull as [Hbatch Hrest].
  destruct k as [|k].
  - destruct rest; [simpl in Hk; lia|exact Hbatch].
  - simpl. apply IH; [exact Hrest|simpl in Hk; lia].
Qed.

Lemma batchArray_loop_sizes (fuel : nat) :
  forall (i : Z) (batches result : list (list T)),
    (0 <= i)%Z ->
    Generics.batchArray_loop fuel array maxBatchSize i batches = Some result ->
    exists more,
      result = batches ++ more
      /\ Generics.fullExceptLast maxBatchSize more
      /\ Z.of_nat (length (concat more))
         = Z.max 0 (Z.of_nat (length array) - i).
Proof.
  induction fuel as [|fuel IH]; intros i batches result Hi Hrun;
    [discriminate|].
  simpl in Hrun.
  destruct (Z.ltb_spec i (Z.of_nat (length array))) as [Hlt|Hge].
  - apply IH in Hrun; [|lia]. destruct Hrun as (more & -> & Hfull & Hlen).
    exists (Generics.slice array i (i + maxBatchSize) :: more).
    rewrite <- app_assoc. split; [reflexivity|].
    assert (Hslice : Z.of_nat (length (Generics.slice array i (i + maxBatchSize)))
                     = Z.min maxBatchSize (Z.of_nat (length array) - i)).
    { rewrite slice_inside by lia. rewrite length_firstn, length_skipn. lia. }
    split.
    + split; [|exact Hfull].
      destruct more as [|next more']; [lia|].
      pose proof (fullExceptLast_nonempty _ _ Hfull). lia.
    + simpl. rewrite length_app, Nat2Z.inj_add, Hslice, Hlen. lia.
  - injection Hrun as <-. exists []. rewrite app_nil_r.
    split; [reflexivity|]. split; [exact I|]. simpl. lia.
Qed.

End BatchSizes.

(** X6.  With [maxBatchSize >= 1], [batchArray] finishes (any fuel above
    the length of the array is enough, and no fuel gives another result)
    with ceil(length / maxBatchSize) batches, every one of them but the last
    holding exactly [maxBatchSize] elements. *)
Theorem batchArray_fills_batches {T : Type} (array : list T) (maxBatchSize : Z) :
  (1 <= maxBatchSize)%Z ->
  exists batches,
    (forall fuel, (length array < fuel)%nat ->
       Generics.batchArray fuel array maxBatchSize = Some batches)
    /\ (forall fuel result,
          Generics.batchArray fuel array maxBatchSize = Some result ->
          result = batches)
    /\ Z.of_nat (length batches)
       = ((Z.of_nat (length array) + maxBatchSize - 1) / maxBatchSize)%Z
    /\ forall k, (S k < length batches)%nat ->
                 Z.of_nat (length (nth k batches [])) = maxBatchSize.
Proof.
  intros Hmax.
  destruct (batchArray_loop_terminates array maxBatchSize (S (length array))
              Hmax 0 []) as (batches & Hrun & _ & _); [lia|lia|].
  simpl app in Hrun.
  exists batches.
  split; [|split].
  - intros fuel Hfuel.
    apply (batchArray_loop_more_fuel array maxBatchSize (S (length array)));
      [exact Hrun|lia].
  - intros fuel result Hresult. unfold Generics.batchArray in Hresult.
    destruct (Nat.le_ge_cases fuel (S (length array))) as [Hle|Hge].
    + pose proof (batchArray_loop_more_fuel array maxBatchSize fuel 0 [] result
                    (S (length array)) Hresult Hle) as Hsame.
      congruence.
    + pose proof (batchArray_loop_more_fuel array maxBatchSize
                    (S (length array)) 0 [] batches fuel Hrun Hge) as Hsame.
      congruence.
  - destruct (batchArray_loop_sizes array maxBatchSize Hmax
                (S (length array)) 0 [] batches ltac:(lia) Hrun)
      as (more & Heq & Hfull & Hlen).
    simpl in Heq. subst more.
    split.
    + rewrite (fullExceptLast_count maxBatchSize Hmax batches Hfull), Hlen.
      f_equal. lia.
    + now apply fullExceptLast_nth.
Qed.

Lemma batchArray_fills_batches_witness :
  exists batches,
    (forall fuel, (10 < fuel)%nat ->
       Generics.batchArray fuel [1; 2; 3; 4; 5; 6; 7; 8; 9; 10]%Z 3 = Some batches)
    /\ (forall fuel result,
          Generics.batchArray fuel [1; 2; 3; 4; 5; 6; 7; 8; 9; 10]%Z 3 = Some result ->
          result = batches)
    /\ Z.of_nat (length batches) = ((10 + 3 - 1) / 3)%Z
    /\ forall k, (S k < length batches)%nat ->
                 Z.of_nat (length (nth k batches [])) = 3%Z.
Proof.
  apply (batchArray_fills_batches [1; 2; 3; 4; 5; 6; 7; 8; 9; 10]%Z 3). lia.
Defined.

(** X7.  The two ends of [batchArray]: an empty array gives no batch at
    all, whatever the batch size, zero and negative sizes included; a
    non-empty array that fits into one batch comes back as that one batch. *)
Theorem batchArray_edges {T : Type} (array : list T) (maxBatchSize : Z)
        (fuel : nat) :
  Generics.batchArray (S fuel) (@nil T) maxBatchSize = Some []
  /\ (array <> [] -> (Z.of_nat (length array) <= maxBatchSize)%Z ->
      Generics.batchArray (S (S fuel)) array maxBatchSize = Some [array]).
Proof.
  split; [reflexivity|].
  intros Hne Hfits.
  assert (Hlen : (0 < Z.of_nat (length array))%Z)
    by (destruct array; [congruence|simpl; lia]).
  unfold Generics.batchArray. simpl.
  destruct (Z.ltb_spec 0 (Z.of_nat (length array))) as [_|?]; [|lia].
  destruct (Z.ltb_spec maxBatchSize (Z.of_nat (length array))) as [?|_]; [lia|].
  pose proof (slice_inside array maxBatchSize 0 ltac:(lia) ltac:(lia)) as Hslice.
  simpl in Hslice. rewrite Hslice.
  rewrite firstn_all2 by lia. reflexivity.
Qed.

Lemma batchArray_edges_witness :
  Generics.batchArray 2 [1; 2; 3]%Z 5 = Some [[1; 2; 3]%Z].
Proof.
  apply (proj2 (batchArray_edges [1; 2; 3]%Z 5 0)); [discriminate|simpl; lia].
Defined.

(** X8.  [transformBasedOnParameter] keeps the promise of its conditional
    return type although it casts through [any]: with "num" it returns the
    number itself, with "str" a string, with "bool" a boolean that is
    [false] exactly for zero; what it returns always has the run-time type
    its parameter names.  With any other parameter it throws
    "Invalid type". *)
Theorem transformBasedOnParameter_matches_type (value : Z) (type : string) :
  (forall r, Generics.transformBasedOnParameter value type = Js.Return r ->
             (type = "num" /\ r = Js.VNumber value)
             \/ (type = "str" /\ Js.typeof (Some r) = "string")
             \/ (type = "bool" /\ r = Js.VBool (negb (value =? 0)%Z)))
  /\ (forall e, Generics.transformBasedOnParameter value type = Js.Throw e <->
                e = "Invalid type"
                /\ type <> "num" /\ type <> "str" /\ type <> "bool").
Proof.
  unfold Generics.transformBasedOnParameter.
  destruct (String.eqb_spec type "num") as [->|Hnum].
  { split.
    - intros r Hret. injection Hret as <-. left. now split.
    - intros e. split; [discriminate|]. intros (_ & Habs & _). congruence. }
  destruct (String.eqb_spec type "str") as [->|Hstr].
  { split.
    - intros r Hret. injection Hret as <-. right. left. now split.
    - intros e. split; [discriminate|]. intros (_ & _ & Habs & _). congruence. }
  destruct (String.eqb_spec type "bool") as [->|Hbool].
  { split.
    - intros r Hret. injection Hret as <-. right. right. now split.
    - intros e. split; [discriminate|]. intros (_ & _ & _ & Habs). congruence. }
  split.
  - intros r Hret. discriminate.
  - intros e. split.
    + intros Hthrow. injection Hthrow as <-. now repeat split.
    + intros [-> _]. reflexivity.
Qed.

Lemma transformBasedOnParameter_matches_type_witness :
  ("bool" = "num" /\ Js.VBool true = Js.VNumber 1)
  \/ ("bool" = "str" /\ Js.typeof (Some (Js.VBool true)) = "string")
  \/ ("bool" = "bool" /\ Js.VBool true = Js.VBool (negb (1 =? 0)%Z)).
Proof.
  apply (proj1 (transformBasedOnParameter_matches_type 1 "bool") (Js.VBool true)).
  reflexivity.
Defined.

(* ================================================================== *)
(** * Further properties of the guards and notifications *)
(* ================================================================== *)

(** X9.  The guards on the [type] field exclude one another: no object is
    accepted by two of [betterIsTextMessage], [betterIsImageMessage] and
    [betterIsVideoMessage] (the property-based guards do overlap), and an
    object whose [type] is one of the three literals is accepted by one. *)
Theorem better_guards_exclude_each_other (message : Js.JsObject) :
  (DiscriminatedUnions.betterIsTextMessage message = true ->
   DiscriminatedUnions.betterIsImageMessage message = false
   /\ DiscriminatedUnions.betterIsVideoMessage message = false)
  /\ (DiscriminatedUnions.betterIsImageMessage message = true ->
      DiscriminatedUnions.betterIsTextMessage message = false
      /\ DiscriminatedUnions.betterIsVideoMessage message = false)
  /\ (DiscriminatedUnions.betterIsVideoMessage message = true ->
      DiscriminatedUnions.betterIsTextMessage message = false
      /\ DiscriminatedUnions.betterIsImageMessage message = false)
  /\ (forall literal,
         Js.get "type" message = Some (Js.VString literal) ->
         In literal ["text"; "image"; "video"] ->
         (DiscriminatedUnions.betterIsTextMessage message
          || DiscriminatedUnions.betterIsImageMessage message
          || DiscriminatedUnions.betterIsVideoMessage message) = true).
Proof.
  unfold DiscriminatedUnions.betterIsTextMessage,
    DiscriminatedUnions.betterIsImageMessage,
    DiscriminatedUnions.betterIsVideoMessage,
    DiscriminatedUnions.strictEquals.
  destruct (Js.get "type" message) as [[| | |s| |]|];
    try (repeat split; try discriminate; intros ? Habs; discriminate Habs).
  assert (Hother : forall a b : string,
             a <> b -> String.eqb s a = true -> String.eqb s b = false).
  { intros a b Hne Ha. apply String.eqb_eq in Ha. subst s.
    now apply String.eqb_neq. }
  split; [|split; [|split]].
  - intros Htext. split; apply (Hother "text"); (discriminate || exact Htext).
  - intros Himage. split; apply (Hother "image"); (discriminate || exact Himage).
  - intros Hvideo. split; apply (Hother "video"); (discriminate || exact Hvideo).
  - intros literal Hget Hin. injection Hget as ->.
    destruct Hin as [<-|[<-|[<-|[]]]]; reflexivity.
Qed.

Lemma better_guards_exclude_each_other_witness :
  DiscriminatedUnions.betterIsTextMessage
    [("type", Js.VString "image"); ("imageUrl", Js.VString "a.jpg");
     ("text", Js.VString "hi")] = false
  /\ DiscriminatedUnions.betterIsVideoMessage
       [("type", Js.VString "image"); ("imageUrl", Js.VString "a.jpg");
        ("text", Js.VString "hi")] = false.
Proof.
  apply (proj1 (proj2 (better_guards_exclude_each_other
           [("type", Js.VString "image"); ("imageUrl", Js.VString "a.jpg");
            ("text", Js.VString "hi")]))).
  reflexivity.
Defined.

(** X10.  [createNotification] throws exactly for an image message that
    lacks its width or its height: the text content is absent or empty, the
    image URL is non-empty, and [width] or [height] is undefined.  A video
    message without a duration does not throw; its notification reads
    "NaN:NaN". *)
Theorem createNotification_throws_for_incomplete_images
        (message : TypeAssertions.IncomingMessage) :
  ((exists e, TypeAssertions.createNotification message = Js.Throw e)
   <-> TypeAssertions.truthy (TypeAssertions.textContent message) = false
       /\ TypeAssertions.truthy (TypeAssertions.imageUrl message) = true
       /\ (TypeAssertions.width message = None
           \/ TypeAssertions.height message = None))
  /\ (TypeAssertions.truthy (TypeAssertions.textContent message) = false ->
      TypeAssertions.truthy (TypeAssertions.imageUrl message) = false ->
      TypeAssertions.truthy (TypeAssertions.videoUrl message) = true ->
      TypeAssertions.duration message = None ->
      TypeAssertions.createNotification message
      = Js.Return (TypeAssertions.sender message ++ " sent a video (NaN:NaN)")%string).
Proof.
  unfold TypeAssertions.createNotification.
  split.
  - destruct (TypeAssertions.truthy (TypeAssertions.textContent message)).
    { split; [intros [e He]; discriminate|intros [Habs _]; discriminate]. }
    destruct (TypeAssertions.truthy (TypeAssertions.imageUrl message)).
    + destruct (TypeAssertions.width message) as [w|].
      * destruct (TypeAssertions.height message) as [h|].
        -- split; [intros [e He]; discriminate|].
           intros (_ & _ & [Habs|Habs]); discriminate.
        -- split; [intros _; auto|intros _; eexists; reflexivity].
      * split; [intros _; auto|intros _; eexists; reflexivity].
    + split; [|intros (_ & Habs & _); discriminate].
      intros [e He].
      destruct (TypeAssertions.truthy (TypeAssertions.videoUrl message));
        discriminate.
  - intros -> -> -> ->. reflexivity.
Qed.

Lemma createNotification_throws_for_incomplete_images_witness :
  exists e,
    TypeAssertions.createNotification
      {| TypeAssertions.id := "2"; TypeAssertions.sender := "Bob";
         TypeAssertions.timestamp := 1700000000000;
         TypeAssertions.textContent := None;
         TypeAssertions.imageUrl := Some "photo.jpg";
         TypeAssertions.width := None; TypeAssertions.height := None;
         TypeAssertions.videoUrl := None; TypeAssertions.duration := None |}
    = Js.Throw e.
Proof.
  apply (proj2 (proj1 (createNotification_throws_for_incomplete_images
           {| TypeAssertions.id := "2"; TypeAssertions.sender := "Bob";
              TypeAssertions.timestamp := 1700000000000;
              TypeAssertions.textContent := None;
              TypeAssertions.imageUrl := Some "photo.jpg";
              TypeAssertions.width := None; TypeAssertions.height := None;
              TypeAssertions.videoUrl := None;
              TypeAssertions.duration := None |}))).
  simpl. auto.
Defined.

Lemma displayLastNotification_never_falls_through_witness :
  exists failure,
    RuntimeValidation.StructError
      [Validation.mkViolation []
         (Validation.EUnion ["FriendRequest"; "NewMessage"; "ApplicationUpdate"])
         (Validation.Found Validation.RObject)]
    = RuntimeValidation.StructError failure
    /\ failure <> [].
Proof.
  apply (displayLastNotification_never_falls_through Samples.aliceWithReactions).
  reflexivity.
Defined.
